(** * The OpenSSL-backed prf+ key derivation function

    A shallow embedding of
    [src/libstrongswan/plugins/openssl/openssl_kdf.c]: the private
    instance ([private_kdf_t]), its six methods and the constructor
    [openssl_kdf_create], over an explicit model of the C heap.

    - Storage is a list of blocks; an address is an index into it, and
      a released block stays in the list with its last contents, so the
      bytes a buffer held when it was released remain observable.
    - OpenSSL and the enum tables of libstrongswan are not part of the
      translated file.  They are the fields of the class [Externals];
      every statement below holds for all of them.
    - [Sample] is one executable instance of [Externals], used to run
      the code on concrete inputs. *)

From Stdlib Require Import ZArith NArith Lia String.
From Stdlib Require Import Strings.Byte DecimalString.
From stdpp Require Import base option list.

Local Open Scope N_scope.

(** ** Memory *)

(** An address is the index of a block. *)
Abbreviation addr := nat.

(** A C pointer into allocated storage; [None] is [NULL]. *)
Definition pointer := option addr.

Record block := Block { live : bool; data : list byte }.

Abbreviation heap := (list block).

(** [!p] for a pointer [p] of any type. *)
Definition is_null {A} (p : option A) : bool :=
  match p with None => true | Some _ => false end.

(** [chunk_t]: a pointer and a length ([size_t]). *)
Record chunk_t := Chunk { ptr : pointer; len : N }.

Definition chunk_empty : chunk_t := Chunk None 0.

(** What a caller's [chunk_t] argument denotes: [None] for a [NULL]
    pointer, otherwise the [len] bytes it points to.  The caller's own
    storage is not part of [heap]: the instance never hands out its
    buffers, so a caller cannot pass a chunk that overlaps them. *)
Definition bytes_in := option (list byte).

Definition kill (b : block) : block := Block false (data b).

Definition overwrite (bs : list byte) (b : block) : block :=
  Block (live b) (bs ++ drop (length bs) (data b)).

(** [free(p)]; [free(NULL)] does nothing. *)
Definition free (p : pointer) (h : heap) : heap :=
  match p with
  | None => h
  | Some a => alter kill a h
  end.

(** Writing [bs] at the start of the block [p] points to ([memcpy], or
    a callee filling an output buffer). *)
Definition write (p : pointer) (bs : list byte) (h : heap) : heap :=
  match p with
  | None => h
  | Some a => alter (overwrite bs) a h
  end.

(** [memwipe(p, n)]: [n] zero bytes. *)
Definition memwipe (p : pointer) (n : N) (h : heap) : heap :=
  write p (replicate (N.to_nat n) x00) h.

(** The first [n] bytes at [p]. *)
Definition load (h : heap) (p : pointer) (n : N) : list byte :=
  match p with
  | None => []
  | Some a =>
      match h !! a with
      | Some b => take (N.to_nat n) (data b)
      | None => []
      end
  end.

Definition is_live (h : heap) (a : addr) : bool :=
  match h !! a with
  | Some b => live b
  | None => false
  end.

(** The contents of a chunk as its owner reads them. *)
Definition chunk_bytes (h : heap) (c : chunk_t) : list byte :=
  load h (ptr c) (len c).

(** The chunk as a callee sees it when handed [c.ptr, c.len]. *)
Definition chunk_view (h : heap) (c : chunk_t) : bytes_in :=
  match ptr c with
  | None => None
  | Some _ => Some (chunk_bytes h c)
  end.

(** The length that goes with what a callee is shown. *)
Definition view_len (v : bytes_in) : N :=
  match v with
  | None => 0
  | Some bs => N.of_nat (length bs)
  end.

(** What a callee is shown of a clone of [v]: cloning nothing gives the
    empty chunk, whose pointer is [NULL]. *)
Definition cloned (v : bytes_in) : bytes_in :=
  match v with
  | Some (b :: bs) => Some (b :: bs)
  | _ => None
  end.

(** ** What the translated file takes from elsewhere *)

(** [key_derivation_function_t] (crypto/kdfs/kdf.h). *)
Inductive key_derivation_function_t :=
| KDF_UNDEFINED
| KDF_PRF
| KDF_PRF_PLUS.

(** [kdf_param_t] (crypto/kdfs/kdf.h).  The header declares the two
    enumerators the [switch] in [set_param] names; being a C enum, the
    parameter can carry any other integer, which [KDF_PARAM_other]
    stands for. *)
Inductive kdf_param_t :=
| KDF_PARAM_KEY
| KDF_PARAM_SALT
| KDF_PARAM_other (n : Z).

(** [SIZE_MAX] of <stdint.h>, for a 64-bit [size_t]. *)
Definition SIZE_MAX : N := 2 ^ 64 - 1.

(** The functions and constants [openssl_kdf.c] calls but does not
    define.  An OpenSSL call that returns [int] and updates the context
    it is given returns the pair of both; pointers a call reads through
    are passed as the bytes they point to ([bytes_in]) with their
    length; the output buffer of [EVP_PKEY_derive] is passed as whether
    it is [NULL], and the bytes the call stored in it are returned
    (also when the call fails). *)
Class Externals := {
  (* libc: the contents of storage fresh from malloc *)
  uninit : byte;
  (* libc: whether malloc has no storage for a request of so many bytes
     and returns NULL; taken to depend on the size asked for only *)
  malloc_refuses : N -> bool;
  (* libstrongswan: crypto/hashers/hasher.c, utils/enum.c *)
  pseudo_random_function_t : Type;
  hash_algorithm_t : Type;
  hasher_algorithm_from_prf : pseudo_random_function_t -> hash_algorithm_t;
  hash_algorithm_short_names : hash_algorithm_t -> option string;
  (* OpenSSL: <openssl/evp.h>, <openssl/kdf.h> *)
  EVP_MD : Type;
  EVP_PKEY_CTX : Type;
  EVP_PKEY_HKDF : Z;
  EVP_PKEY_HKDEF_MODE_EXPAND_ONLY : Z;
  EVP_MD_size : EVP_MD -> N;
  EVP_get_digestbyname : string -> option EVP_MD;
  EVP_PKEY_CTX_new_id : Z -> option EVP_PKEY_CTX;
  EVP_PKEY_derive_init : EVP_PKEY_CTX -> Z * EVP_PKEY_CTX;
  EVP_PKEY_CTX_set_hkdf_md :
    EVP_PKEY_CTX -> option EVP_MD -> Z * EVP_PKEY_CTX;
  EVP_PKEY_CTX_hkdf_mode : EVP_PKEY_CTX -> Z -> Z * EVP_PKEY_CTX;
  EVP_PKEY_CTX_set1_hkdf_key :
    EVP_PKEY_CTX -> bytes_in -> N -> Z * EVP_PKEY_CTX;
  EVP_PKEY_CTX_add1_hkdf_info :
    EVP_PKEY_CTX -> bytes_in -> N -> Z * EVP_PKEY_CTX;
  EVP_PKEY_derive : EVP_PKEY_CTX -> bool -> N -> Z * list byte;
}.

(** [enum_to_name(e, val)] for the table [e]: the name, or [NULL]. *)
Definition enum_to_name {A} (e : A -> option string) (val : A)
  : option string := e val.

(** One disjunct [call <= 0] of the condition in [get_bytes]: the
    context goes on to the next call only when the call succeeded. *)
Definition positive_result {A} (r : Z * A) : option A :=
  if (fst r <=? 0)%Z then None else Some (snd r).

Section Kdf.
Context `{E : Externals}.

(** ** Chunk helpers (utils/chunk.h) *)

(** [malloc(n)] when the request is served: a new block of [n] bytes.
    Whether it is served is asked where a caller names the size
    ([chunk_alloc]); the copies [chunk_clone] makes are of values that
    are in memory already, and are taken to be served. *)
Definition malloc (n : N) (h : heap) : pointer * heap :=
  (Some (length h), h ++ [Block true (replicate (N.to_nat n) uninit)]).

(** Modelled from the spec: [chunk_alloc] is a macro of utils/chunk.h,
    which is not among the sources; "allocates a buffer of exactly
    [output_length] bytes".  The chunk gets the length asked for and
    the pointer [malloc] returns, which nothing tests: it is [NULL]
    when [malloc] has no storage for the request.  For zero bytes
    there is nothing to allocate, and the chunk is the zero-length
    result with no storage behind it. *)
Definition chunk_alloc (bytes : N) (h : heap) : chunk_t * heap :=
  if bytes =? 0 then (Chunk None bytes, h)
  else if malloc_refuses bytes then (Chunk None bytes, h)
  else let '(p, h1) := malloc bytes h in (Chunk p bytes, h1).

(** Whether [chunk_alloc(bytes)] comes back with storage. *)
Definition backed (bytes : N) : bool :=
  negb (bytes =? 0) && negb (malloc_refuses bytes).

(** What a new buffer of [n] bytes holds after [stored] was written to
    its start. *)
Definition filled (n : N) (stored : list byte) : list byte :=
  take (N.to_nat n)
    (stored ++ drop (length stored) (replicate (N.to_nat n) uninit)).

(** Modelled from the spec: [chunk_free] is an inline function of
    utils/chunk.h, which is not among the sources; it "releases the
    allocated buffer" and leaves the empty chunk behind. *)
Definition chunk_free (chunk : chunk_t) (h : heap) : chunk_t * heap :=
  (chunk_empty, free (ptr chunk) h).

(** Modelled from the spec: [chunk_clear] is an inline function of
    utils/chunk.h, which is not among the sources; the previous value
    is "zeroed and released": its bytes are overwritten with zero
    bytes, then the storage is freed.  An empty chunk is left alone. *)
Definition chunk_clear (chunk : chunk_t) (h : heap) : chunk_t * heap :=
  match ptr chunk with
  | None => (chunk, h)
  | Some _ => chunk_free chunk (memwipe (ptr chunk) (len chunk) h)
  end.

(** Modelled from the spec: [chunk_clone] is a macro of utils/chunk.h,
    which is not among the sources; a "new owned copy of [value]" is
    stored.  As in the header, cloning nothing allocates nothing and
    gives the empty chunk. *)
Definition chunk_clone (chunk : bytes_in) (h : heap) : chunk_t * heap :=
  match chunk with
  | None | Some [] => (chunk_empty, h)
  | Some bs =>
      let n := N.of_nat (length bs) in
      let '(p, h1) := malloc n h in
      (Chunk p n, write p bs h1)
  end.

(** [chunk_from_str("00000000000000000000000000000000")]: 32 times the
    character '0'. *)
Definition placeholder_key : list byte := replicate 32 x30.

(** ** The instance *)

(** [struct private_kdf_t].  The public method table is fixed at
    construction and is not represented. *)
Record private_kdf_t := Private_kdf {
  hasher : option EVP_MD;
  key : chunk_t;
  salt : chunk_t;
}.

Definition get_type (this : private_kdf_t) : key_derivation_function_t :=
  KDF_PRF_PLUS.

Definition get_length (this : private_kdf_t) : N := SIZE_MAX.

(** The calls [get_bytes] makes, on the values it reads from the
    instance: a new context, expand-only mode, the digest, the key, the
    info, and the derivation.  The first call that does not return a
    positive number ends it. *)
Definition hkdf_expand_only (md : option EVP_MD)
    (key_data : bytes_in) (key_len : N) (info : bytes_in) (info_len : N)
    (out_len : N) (out_is_null : bool) : bool * list byte :=
  let derived :=
    ctx ← EVP_PKEY_CTX_new_id EVP_PKEY_HKDF;
    ctx ← positive_result (EVP_PKEY_derive_init ctx);
    ctx ← positive_result (EVP_PKEY_CTX_set_hkdf_md ctx md);
    ctx ← positive_result
            (EVP_PKEY_CTX_hkdf_mode ctx EVP_PKEY_HKDEF_MODE_EXPAND_ONLY);
    ctx ← positive_result (EVP_PKEY_CTX_set1_hkdf_key ctx key_data key_len);
    ctx ← positive_result (EVP_PKEY_CTX_add1_hkdf_info ctx info info_len);
    Some (EVP_PKEY_derive ctx out_is_null out_len)
  in
  match derived with
  | None => (false, [])
  | Some (r, stored) => (negb (r <=? 0)%Z, stored)
  end.

(** [get_bytes(this, out_len, buffer)].  The result is the returned
    [bool] and the bytes the call stored in [buffer], which the caller
    of this definition places in its buffer.  [EVP_PKEY_CTX_free] has
    no counterpart: the context is a value that ends here. *)
Definition get_bytes (this : private_kdf_t) (out_len : N)
    (buffer_is_null : bool) (h : heap) : bool * list byte :=
  let derived :=
    ctx ← EVP_PKEY_CTX_new_id EVP_PKEY_HKDF;
    ctx ← positive_result (EVP_PKEY_derive_init ctx);
    ctx ← positive_result (EVP_PKEY_CTX_set_hkdf_md ctx (hasher this));
    ctx ← positive_result
            (EVP_PKEY_CTX_hkdf_mode ctx EVP_PKEY_HKDEF_MODE_EXPAND_ONLY);
    ctx ← positive_result
            (EVP_PKEY_CTX_set1_hkdf_key ctx
               (chunk_view h (key this)) (len (key this)));
    ctx ← positive_result
            (EVP_PKEY_CTX_add1_hkdf_info ctx
               (chunk_view h (salt this)) (len (salt this)));
    Some (EVP_PKEY_derive ctx buffer_is_null out_len)
  in
  match derived with
  | None => (false, [])
  | Some (r, stored) => (negb (r <=? 0)%Z, stored)
  end.

(** [allocate_bytes(this, out_len, chunk)]: the returned [bool] and the
    value left in [*chunk]. *)
Definition allocate_bytes (this : private_kdf_t) (out_len : N) (h : heap)
  : bool * chunk_t * heap :=
  let '(chunk, h1) := chunk_alloc out_len h in
  let '(ok, stored) := get_bytes this out_len (is_null (ptr chunk)) h1 in
  let h2 := write (ptr chunk) stored h1 in
  if negb ok then
    let '(chunk', h3) := chunk_free chunk h2 in
    (false, chunk', h3)
  else (true, chunk, h2).

(** [set_param(this, param, ...)]: [chunk] is the variadic argument,
    read by [VA_ARGS_GET] in the two cases that have one. *)
Definition set_param (this : private_kdf_t) (param : kdf_param_t)
    (chunk : bytes_in) (h : heap) : bool * private_kdf_t * heap :=
  match param with
  | KDF_PARAM_KEY =>
      let '(_, h1) := chunk_clear (key this) h in
      let '(k, h2) := chunk_clone chunk h1 in
      (true, Private_kdf (hasher this) k (salt this), h2)
  | KDF_PARAM_SALT =>
      let '(_, h1) := chunk_clear (salt this) h in
      let '(s, h2) := chunk_clone chunk h1 in
      (true, Private_kdf (hasher this) (key this) s, h2)
  | KDF_PARAM_other _ => (true, this, h)
  end.

(** [destroy(this)].  The struct is a value here; [free(this)] is its
    end, and nothing is returned but the heap. *)
Definition destroy (this : private_kdf_t) (h : heap) : heap :=
  let '(_, h1) := chunk_clear (salt this) h in
  let '(_, h2) := chunk_clear (key this) h1 in
  h2.

(** The [INIT(this, ...)] of the constructor: the digest looked up by
    name, the cloned placeholder key, and a salt left zeroed. *)
Definition init (name : string) (h : heap) : private_kdf_t * heap :=
  let '(k, h1) := chunk_clone (Some placeholder_key) h in
  (Private_kdf (EVP_get_digestbyname name) k chunk_empty, h1).

(** [sizeof(buf)] for [char buf[8]]. *)
Definition sizeof_buf : N := 8.

(** [openssl_kdf_create(algo, args)]; [prf_alg] is the argument read by
    [VA_ARGS_VGET].  [buf] is a local array: the self-test output is
    dropped with it. *)
Definition openssl_kdf_create (algo : key_derivation_function_t)
    (prf_alg : pseudo_random_function_t) (h : heap)
  : option private_kdf_t * heap :=
  match algo with
  | KDF_PRF_PLUS =>
      match enum_to_name hash_algorithm_short_names
              (hasher_algorithm_from_prf prf_alg) with
      | None => (None, h)
      | Some name =>
          let '(this, h1) := init name h in
          if is_null (hasher this)
             || negb (fst (get_bytes this sizeof_buf false h1))
          then (None, destroy this h1)
          else (Some this, h1)
      end
  | _ => (None, h)
  end.

(** What a caller observes of one [allocate_bytes]: the returned
    [bool] and the bytes of the chunk it was given. *)
Definition derive (this : private_kdf_t) (out_len : N) (h : heap)
  : bool * list byte :=
  let '(ok, chunk, h') := allocate_bytes this out_len h in
  (ok, chunk_bytes h' chunk).

(** ** Well-formed instances *)

(** A chunk the instance owns: empty, or a live block of exactly [len]
    bytes, [len] not zero (what [chunk_clone] produces). *)
Definition owned (h : heap) (c : chunk_t) : bool :=
  match ptr c with
  | None => len c =? 0
  | Some a =>
      match h !! a with
      | Some b =>
          live b && (N.of_nat (length (data b)) =? len c)
          && negb (len c =? 0)
      | None => false
      end
  end.

Definition separate (c d : chunk_t) : bool :=
  match ptr c, ptr d with
  | Some a, Some b => negb (a =? b)%nat
  | _, _ => true
  end.

(** The key and the salt are owned and do not share storage. *)
Definition wf (this : private_kdf_t) (h : heap) : bool :=
  owned h (key this) && owned h (salt this)
  && separate (key this) (salt this).

(** [p] points to released storage that holds [n] zero bytes. *)
Definition wiped (h : heap) (p : pointer) (n : N) : Prop :=
  match p with
  | None => True
  | Some a =>
      is_live h a = false /\ load h p n = replicate (N.to_nat n) x00
  end.

End Kdf.

(** ** A sample environment

    One executable choice of [Externals], in the manner of OpenSSL's
    HKDF method: a context that records digest, mode and key, an info
    field that only grows (up to 1024 bytes, as the comment on
    [private_kdf_t.key] says), and an expansion after RFC 5869 that is
    refused beyond 255 blocks and into a [NULL] buffer.  The keyed hash
    is a stand-in that is cheap to evaluate; nothing proved for all
    [Externals] depends on it. *)
Module Sample.

Inductive md := Md (size : N).

Definition md_size (m : md) : N := let 'Md n := m in n.

Record ctx := Ctx {
  c_init : bool;
  c_md : option md;
  c_mode : Z;
  c_key : option (list byte);
  c_info : list byte;
}.

Definition byte_of_N (n : N) : byte :=
  default x00 (Byte.of_N (n mod 256)).

Definition mix (acc : N) (b : byte) : N :=
  (acc * 131 + Byte.to_N b + 1) mod 65521.

Definition mac (m : md) (k msg : list byte) : list byte :=
  let seed := fold_left mix (k ++ x5c :: msg) 7 in
  map (fun i => byte_of_N ((seed + 1) * (2 * N.of_nat i + 3) / 5))
      (seq 0 (N.to_nat (md_size m))).

(** T(i) | T(i+1) | ... for [n] blocks, T(i) = mac(prk, T(i-1) | info | i). *)
Fixpoint expand_blocks (m : md) (prk info prev : list byte) (i : N)
    (n : nat) : list byte :=
  match n with
  | O => []
  | S n' =>
      let t := mac m prk (prev ++ info ++ [byte_of_N i]) in
      t ++ expand_blocks m prk info t (i + 1) n'
  end.

Definition HKDF_Expand (m : md) (prk info : list byte) (okm_is_null : bool)
    (okm_len : N) : option (list byte) :=
  let dig_len := md_size m in
  let n := okm_len / dig_len + (if okm_len mod dig_len =? 0 then 0 else 1) in
  if (255 <? n) || okm_is_null then None
  else Some (take (N.to_nat okm_len)
               (expand_blocks m prk info [] 1 (N.to_nat n))).

Definition HKDF_MAXBUF : N := 1024.

Definition new_id (id : Z) : option ctx :=
  if (id =? 1036)%Z then Some (Ctx false None 0 None []) else None.

Definition derive_init (c : ctx) : Z * ctx :=
  (1%Z, Ctx true (c_md c) (c_mode c) (c_key c) (c_info c)).

Definition set_hkdf_md (c : ctx) (m : option md) : Z * ctx :=
  match m with
  | None => (0%Z, c)
  | Some _ => (1%Z, Ctx (c_init c) m (c_mode c) (c_key c) (c_info c))
  end.

Definition hkdf_mode (c : ctx) (mode : Z) : Z * ctx :=
  if ((0 <=? mode) && (mode <=? 2))%Z
  then (1%Z, Ctx (c_init c) (c_md c) mode (c_key c) (c_info c))
  else ((-2)%Z, c).

Definition set1_hkdf_key (c : ctx) (k : bytes_in) (n : N) : Z * ctx :=
  match k with
  | None => (0%Z, c)
  | Some bs =>
      if n =? 0 then (0%Z, c)
      else (1%Z, Ctx (c_init c) (c_md c) (c_mode c) (Some bs) (c_info c))
  end.

Definition add1_hkdf_info (c : ctx) (i : bytes_in) (n : N) : Z * ctx :=
  match i with
  | None => (1%Z, c)
  | Some bs =>
      if n =? 0 then (1%Z, c)
      else if HKDF_MAXBUF - N.of_nat (length (c_info c)) <? n then (0%Z, c)
      else (1%Z, Ctx (c_init c) (c_md c) (c_mode c) (c_key c)
                     (c_info c ++ bs))
  end.

Definition pkey_derive (c : ctx) (out_is_null : bool) (n : N)
  : Z * list byte :=
  match c_init c, c_md c, c_key c with
  | true, Some m, Some k =>
      if (c_mode c =? 2)%Z then
        match HKDF_Expand m k (c_info c) out_is_null n with
        | Some okm => (1%Z, okm)
        | None => (0%Z, [])
        end
      else (0%Z, [])
  | _, _, _ => (0%Z, [])
  end.

(** Transform identifiers and hash identifiers, as small integers. *)
Definition PRF_HMAC_MD5 : Z := 1.
Definition PRF_HMAC_SHA1 : Z := 2.
Definition PRF_AES128_XCBC : Z := 4.
Definition PRF_HMAC_SHA2_256 : Z := 5.

Definition HASH_SHA1 : Z := 1.
Definition HASH_SHA2_256 : Z := 2.
Definition HASH_UNKNOWN : Z := 1024.
Definition HASH_MD5 : Z := 1027.

Definition hash_of_prf (p : Z) : Z :=
  if (p =? PRF_HMAC_MD5)%Z then HASH_MD5
  else if (p =? PRF_HMAC_SHA1)%Z then HASH_SHA1
  else if (p =? PRF_HMAC_SHA2_256)%Z then HASH_SHA2_256
  else HASH_UNKNOWN.

Definition short_name (a : Z) : option string :=
  if (a =? HASH_SHA1)%Z then Some "sha1"%string
  else if (a =? HASH_SHA2_256)%Z then Some "sha256"%string
  else if (a =? HASH_MD5)%Z then Some "md5"%string
  else None.

(** A build that offers SHA-1 and SHA-256 but not MD5. *)
Definition digestbyname (s : string) : option md :=
  if String.eqb s "sha1" then Some (Md 20)
  else if String.eqb s "sha256" then Some (Md 32)
  else None.

#[export] Instance externals : Externals := {|
  uninit := xcd;
  malloc_refuses := fun n => 9223372036854775807 <? n;
  pseudo_random_function_t := Z;
  hash_algorithm_t := Z;
  hasher_algorithm_from_prf := hash_of_prf;
  hash_algorithm_short_names := short_name;
  EVP_MD := md;
  EVP_PKEY_CTX := ctx;
  EVP_PKEY_HKDF := 1036;
  EVP_PKEY_HKDEF_MODE_EXPAND_ONLY := 2;
  EVP_MD_size := md_size;
  EVP_get_digestbyname := digestbyname;
  EVP_PKEY_CTX_new_id := new_id;
  EVP_PKEY_derive_init := derive_init;
  EVP_PKEY_CTX_set_hkdf_md := set_hkdf_md;
  EVP_PKEY_CTX_hkdf_mode := hkdf_mode;
  EVP_PKEY_CTX_set1_hkdf_key := set1_hkdf_key;
  EVP_PKEY_CTX_add1_hkdf_info := add1_hkdf_info;
  EVP_PKEY_derive := pkey_derive;
|}.

(** The instance the constructor makes for HMAC-SHA2-256 in an empty
    heap: SHA-256, the placeholder key in block 0, no salt. *)
Definition t0 : private_kdf_t :=
  Private_kdf (Some (Md 32)) (Chunk (Some 0%nat) 32) chunk_empty.

Definition h0 : heap := [Block true placeholder_key].

(** The same construction next to a block some other owner holds. *)
Definition busy : heap := [Block true [x01; x02; x03]].

Definition t1 : private_kdf_t :=
  Private_kdf (Some (Md 32)) (Chunk (Some 1%nat) 32) chunk_empty.

Definition h1 : heap := busy ++ [Block true placeholder_key].

(** The ASCII bytes "test". *)
Definition ascii_test : list byte := [x74; x65; x73; x74].

(** [t0] after a key of four bytes and the salt "test" were set. *)
Definition keyed : bool * private_kdf_t * heap :=
  let '(_, t, h) :=
    set_param t0 KDF_PARAM_KEY (Some [x0a; x0b; x0c; x0d]) h0 in
  set_param t KDF_PARAM_SALT (Some ascii_test) h.

Definition t2 : private_kdf_t := snd (fst keyed).

Definition h2 : heap := snd keyed.

End Sample.

(** ** A provider that answers a size query

    [EVP_PKEY_derive] is documented to take a [NULL] buffer as a
    question for the size of the output: it then stores nothing and
    reports success.  This provider does so; in everything else it is
    [Sample]. *)
Module Sizing.

Definition pkey_derive (c : Sample.ctx) (out_is_null : bool) (n : N)
  : Z * list byte :=
  if out_is_null then (1%Z, []) else Sample.pkey_derive c out_is_null n.

#[export] Instance externals : Externals := {|
  uninit := xcd;
  malloc_refuses := fun n => 9223372036854775807 <? n;
  pseudo_random_function_t := Z;
  hash_algorithm_t := Z;
  hasher_algorithm_from_prf := Sample.hash_of_prf;
  hash_algorithm_short_names := Sample.short_name;
  EVP_MD := Sample.md;
  EVP_PKEY_CTX := Sample.ctx;
  EVP_PKEY_HKDF := 1036;
  EVP_PKEY_HKDEF_MODE_EXPAND_ONLY := 2;
  EVP_MD_size := Sample.md_size;
  EVP_get_digestbyname := Sample.digestbyname;
  EVP_PKEY_CTX_new_id := Sample.new_id;
  EVP_PKEY_derive_init := Sample.derive_init;
  EVP_PKEY_CTX_set_hkdf_md := Sample.set_hkdf_md;
  EVP_PKEY_CTX_hkdf_mode := Sample.hkdf_mode;
  EVP_PKEY_CTX_set1_hkdf_key := Sample.set1_hkdf_key;
  EVP_PKEY_CTX_add1_hkdf_info := Sample.add1_hkdf_info;
  EVP_PKEY_derive := pkey_derive;
|}.

(** The instance the constructor makes for HMAC-SHA2-256 in an empty
    heap. *)
Definition t0 : private_kdf_t :=
  Private_kdf (Some (Sample.Md 32)) (Chunk (Some 0%nat) 32) chunk_empty.

Definition h0 : heap := [Block true placeholder_key].

End Sizing.


(** ** Callers

    The file has no caller of its own; a user of the interface makes
    its calls one after the other on the instance the constructor
    returned.  [run] is such a user. *)

Inductive call :=
| Set_param (param : kdf_param_t) (chunk : bytes_in)
| Allocate_bytes (out_len : N).

Definition is_set_param (c : call) : bool :=
  match c with
  | Set_param _ _ => true
  | Allocate_bytes _ => false
  end.

(** A released block that holds only zero bytes. *)
Definition dead_zero (b : block) : Prop :=
  live b = false /\ data b = replicate (length (data b)) x00.

Section Callers.
Context `{E : Externals}.

Fixpoint run (cs : list call) (this : private_kdf_t) (h : heap)
  : private_kdf_t * heap :=
  match cs with
  | [] => (this, h)
  | Set_param param chunk :: cs' =>
      let '(_, this', h') := set_param this param chunk h in
      run cs' this' h'
  | Allocate_bytes out_len :: cs' =>
      let '(_, _, h') := allocate_bytes this out_len h in
      run cs' this h'
  end.

(** What a well-formed instance constructed in a heap [h0] of [n]
    blocks keeps of it: the blocks below [n] are those of [h0], and the
    key and the salt lie above. *)
Definition kept (n : nat) (h0 : heap) (this : private_kdf_t) (h : heap)
  : Prop :=
  wf this h = true
  /\ (n <= length h)%nat
  /\ (forall a, (a < n)%nat -> h !! a = h0 !! a)
  /\ (forall a, ptr (key this) = Some a \/ ptr (salt this) = Some a ->
        (n <= a)%nat).

(** And what it has made of the storage above: each block is the key,
    the salt, or released and zeroed. *)
Definition tidy (n : nat) (h0 : heap) (this : private_kdf_t) (h : heap)
  : Prop :=
  kept n h0 this h
  /\ (forall a b, (n <= a)%nat -> h !! a = Some b ->
        ptr (key this) = Some a \/ ptr (salt this) = Some a \/ dead_zero b).

End Callers.

(** * The logger

    A shallow embedding of the second source file, [logger.c]: a logger
    with a set of enabled levels, which writes its records to the
    system log or to a file.  What it hands to [syslog], [vsyslog],
    [fprintf], [vfprintf] and [openlog] is recorded as a list of
    [event]s, with the format strings and arguments of the calls; how
    those functions render a format is theirs.  The mutex of
    [log_bytes] has no counterpart: one thread is modelled. *)
Module Logger.

Local Open Scope Z_scope.

(** The bytes of a string literal. *)
Definition str (s : string) : list byte := list_byte_of_string s.

(** The string of the one character a backslash and n stand for. *)
Definition newline : list byte := [x0a].

(** A [FILE *] that is not [NULL]. *)
Abbreviation FILE := nat.

Definition MAX_LOG : Z := 8192.

(** What [logger.c] takes from its headers: the enumerators of
    [log_level_t] (logger.h), the constants of <syslog.h>, the name
    of the daemon (daemon.h), and the identifier of the one thread
    there is. *)
Class Platform := {
  CONTROL : Z;
  ERROR : Z;
  RAW : Z;
  PRIVATE : Z;
  AUDIT : Z;
  LEVEL1 : Z;
  LEVEL2 : Z;
  LEVEL3 : Z;
  LOG_INFO : Z;
  LOG_DAEMON : Z;
  DAEMON_NAME : list byte;
  pthread_self : Z;
}.

(** An argument that follows a format string. *)
Inductive arg :=
| Arg_int (n : Z)
| Arg_str (s : list byte).

(** A call that leaves the program: [syslog] or [vsyslog], [fprintf]
    or [vfprintf], [openlog]. *)
Inductive event :=
| Syslog (priority : Z) (format : list byte) (args : list arg)
| Fprintf (stream : FILE) (format : list byte) (args : list arg)
| Openlog (ident : list byte) (option : Z) (facility : Z).

(** [struct private_logger_t]; strings are kept without their
    terminating NUL.  The function pointers are fixed at construction
    and are not represented. *)
Record private_logger_t := Private_logger {
  level : Z;
  name : list byte;
  output : option FILE;
  log_thread_id : bool;
}.

(** The condition [x] of an [if (x)] on an integer. *)
Definition nonzero (x : Z) : bool := negb (x =? 0).

(** [snprintf(buffer, size, ...)]: of what the format produces, at most
    [size - 1] characters are stored. *)
Definition snprintf (size : Z) (formatted : list byte) : list byte :=
  take (Z.to_nat (size - 1)) formatted.

(** ["%u"] for an [(int)] argument. *)
Definition unsigned_decimal (n : Z) : list byte :=
  str (NilZero.string_of_uint (N.to_uint (Z.to_N (n mod 2 ^ 32)))).

(** The [char] a byte is, as a number: [char] is signed here.  (With an
    unsigned [char] the hex digits and the ASCII column come out the
    same.) *)
Definition char_value (b : byte) : Z :=
  let n := Z.of_N (Byte.to_N b) in
  if n <? 128 then n else n - 256.

Definition hexdig : list byte := str "0123456789ABCDEF".

(** [hexdig[n]]. *)
Definition hexdig_at (n : Z) : byte := default x00 (hexdig !! Z.to_nat n).

(** The digits written for a byte: [hexdig] at the byte shifted right
    by four and masked with [0xF], and at the byte masked with [0xF]. *)
Definition hex_hi (b : byte) : byte :=
  hexdig_at (Z.land (Z.shiftr (char_value b) 4) 15).

Definition hex_lo (b : byte) : byte :=
  hexdig_at (Z.land (char_value b) 15).

(** What goes to the ASCII column for a byte. *)
Definition shown (b : byte) : byte :=
  if (31 <? char_value b) && (char_value b <? 127) then b else "*"%byte.

(** The string a [char] array holds: what comes before its first NUL. *)
Fixpoint c_str (mem : list byte) : list byte :=
  match mem with
  | [] => []
  | c :: rest => if Byte.eqb c x00 then [] else c :: c_str rest
  end.

(** [memset(mem, 0, n)]. *)
Definition memset0 (mem : list byte) (n : nat) : list byte :=
  replicate n x00 ++ drop n mem.

Section Logger.
Context `{P : Platform}.

Definition log_type (loglevel : Z) : byte :=
  if nonzero (Z.land loglevel CONTROL) then "~"%byte
  else if nonzero (Z.land loglevel ERROR) then "!"%byte
  else if nonzero (Z.land loglevel RAW) then "#"%byte
  else if nonzero (Z.land loglevel PRIVATE) then "?"%byte
  else if nonzero (Z.land loglevel AUDIT) then ">"%byte
  else "-"%byte.

Definition log_details (loglevel : Z) : byte :=
  if nonzero (Z.land loglevel (LEVEL3 - LEVEL2)) then "3"%byte
  else if nonzero (Z.land loglevel (LEVEL2 - LEVEL1)) then "2"%byte
  else if nonzero (Z.land loglevel LEVEL1) then "1"%byte
  else "0"%byte.

(** [prepend_prefix(this, loglevel, string, buffer)]: what [buffer]
    holds afterwards. *)
Definition prepend_prefix (this : private_logger_t) (loglevel : Z)
    (string : list byte) : list byte :=
  if log_thread_id this then
    snprintf MAX_LOG
      (["["%byte; log_type loglevel; log_details loglevel] ++ str "] ["
       ++ name this ++ str "] @" ++ unsigned_decimal pthread_self
       ++ str " " ++ string)
  else
    snprintf MAX_LOG
      (["["%byte; log_type loglevel; log_details loglevel] ++ str "] ["
       ++ name this ++ str "] " ++ string).

(** The test both [logg] and [log_bytes] start with. *)
Definition passes (this : private_logger_t) (loglevel : Z) : bool :=
  Z.land (level this) loglevel =? loglevel.

(** [logg(this, loglevel, format, ...)]; [args] are the variadic
    arguments. *)
Definition logg (this : private_logger_t) (loglevel : Z)
    (format : list byte) (args : list arg) : list event :=
  if passes this loglevel then
    let buffer := prepend_prefix this loglevel format in
    match output this with
    | None => [Syslog LOG_INFO buffer args]
    | Some f => [Fprintf f buffer args; Fprintf f newline []]
    end
  else [].

(** One line of the dump is handed over. *)
Definition dump_line (this : private_logger_t) (last : bool)
    (line_start : Z) (buffer ascii_buffer : list byte) : event :=
  let args :=
    [Arg_int line_start; Arg_str buffer; Arg_str (c_str ascii_buffer)] in
  match output this, last with
  | None, false => Syslog LOG_INFO (str "[=>] [%5d ] %s %s") args
  | None, true => Syslog LOG_INFO (str "[=>] [%5d ] %s %16s") args
  | Some f, false =>
      Fprintf f (str "[=>] [%5d ] %s %s" ++ newline) args
  | Some f, true =>
      Fprintf f (str "[=>] [%5d ] %s %16s" ++ newline) args
  end.

(** The [for] loop of [log_bytes] and what follows it.  [buffer] is
    what was written from the start of the array since [buffer_pos] was
    last set back to it; [ascii_buffer] is the whole array of 17; [i]
    and [line_start] are the [int]s of the source, which do not
    overflow for inputs of fewer than 2^31 bytes. *)
Fixpoint dump (this : private_logger_t) (bytes : list byte) (i : Z)
    (buffer ascii_buffer : list byte) (line_start : Z) : list event :=
  match bytes with
  | [] =>
      match buffer with
      | [] => []
      | _ :: _ => [dump_line this true line_start buffer ascii_buffer]
      end
  | b :: rest =>
      let buffer := buffer ++ [hex_hi b; hex_lo b] in
      let slot := Z.to_nat (Z.rem i 16) in
      if Z.rem i 16 =? 0 then
        dump_line this false line_start buffer ascii_buffer
        :: dump this rest (i + 1) []
             (<[slot := shown b]> (memset0 ascii_buffer 16))
             (line_start + 16)
      else if Z.rem i 4 =? 0 then
        dump this rest (i + 1) (buffer ++ [" "%byte])
          (<[slot := shown b]> ascii_buffer) line_start
      else
        dump this rest (i + 1) (buffer ++ [" "%byte])
          (<[slot := shown b]> ascii_buffer) line_start
  end.

(** [log_bytes(this, loglevel, label, bytes, len)]; [bytes] are the
    [len] bytes at the pointer. *)
Definition log_bytes (this : private_logger_t) (loglevel : Z)
    (label : list byte) (bytes : list byte) : list event :=
  if passes this loglevel then
    let buffer := prepend_prefix this loglevel (str "%s (%d bytes)") in
    let args := [Arg_str label; Arg_int (Z.of_nat (length bytes))] in
    match output this with
    | None => [Syslog LOG_INFO buffer args]
    | Some f => [Fprintf f buffer args; Fprintf f newline []]
    end
    ++ dump this bytes 1 [] (memset0 (replicate 17 x00) 17) 0
  else [].

(** [log_chunk(this, loglevel, label, chunk)]; [chunk] is given by the
    bytes it points to. *)
Definition log_chunk (this : private_logger_t) (loglevel : Z)
    (label : list byte) (chunk : list byte) : list event :=
  log_bytes this loglevel label chunk.

Definition enable_level (this : private_logger_t) (log_level : Z)
  : private_logger_t :=
  Private_logger (Z.lor (level this) log_level) (name this) (output this)
    (log_thread_id this).

Definition disable_level (this : private_logger_t) (log_level : Z)
  : private_logger_t :=
  Private_logger (Z.land (level this) (Z.lnot log_level)) (name this)
    (output this) (log_thread_id this).

Definition get_level (this : private_logger_t) : Z := level this.

(** [logger_create(logger_name, log_level, log_thread_id, output)];
    [logger_name] may be [NULL]. *)
Definition logger_create (logger_name : option (list byte)) (log_level : Z)
    (log_thread_id : bool) (output : option FILE)
  : private_logger_t * list event :=
  (Private_logger log_level (default [] logger_name) output log_thread_id,
   match output with
   | None => [Openlog DAEMON_NAME 0 LOG_DAEMON]
   | Some _ => []
   end).

End Logger.

(** *** Reading a dump *)

Definition is_syslog (e : event) : bool :=
  match e with Syslog _ _ _ => true | _ => false end.

Definition written_to (f : FILE) (e : event) : bool :=
  match e with Fprintf g _ _ => (g =? f)%nat | _ => false end.

(** The three arguments of a dump line. *)
Definition line_offset (e : event) : option Z :=
  match e with
  | Syslog _ _ [Arg_int n; Arg_str _; Arg_str _]
  | Fprintf _ _ [Arg_int n; Arg_str _; Arg_str _] => Some n
  | _ => None
  end.

Definition line_hex (e : event) : list byte :=
  match e with
  | Syslog _ _ [Arg_int _; Arg_str s; Arg_str _]
  | Fprintf _ _ [Arg_int _; Arg_str s; Arg_str _] => s
  | _ => []
  end.

Definition line_ascii (e : event) : list byte :=
  match e with
  | Syslog _ _ [Arg_int _; Arg_str _; Arg_str s]
  | Fprintf _ _ [Arg_int _; Arg_str _; Arg_str s] => s
  | _ => []
  end.

(** The value of a hexadecimal digit. *)
Definition digit_value (c : byte) : Z :=
  let n := Z.of_N (Byte.to_N c) in
  if (48 <=? n) && (n <=? 57) then n - 48 else n - 55.

Definition byte_of_Z (n : Z) : byte :=
  default x00 (Byte.of_N (Z.to_N (n mod 256))).

(** Reading the hex column back: two digits a byte, one separator
    between bytes. *)
Fixpoint unhex (s : list byte) : list byte :=
  match s with
  | hi :: lo :: tl =>
      byte_of_Z (16 * digit_value hi + digit_value lo)
      :: match tl with
         | [] => []
         | _ :: rest => unhex rest
         end
  | _ => []
  end.

(** The hex column of a line of [l]: two digits a byte, the bytes
    separated by one space. *)
Definition hex_line (l : list byte) : list byte :=
  match l with
  | [] => []
  | b :: l' =>
      [hex_hi b; hex_lo b]
      ++ flat_map (fun b => [" "%byte; hex_hi b; hex_lo b]) l'
  end.

(** The records [log_bytes] writes before the dump: the line with the
    label and the length, and for a file the newline after it. *)
Definition header_records (this : private_logger_t) : nat :=
  match output this with
  | None => 1
  | Some _ => 2
  end.

(** A sample platform: one bit for each kind of message and the detail
    levels above them, in the manner of logger.h; syslog's constants as
    on Linux. *)
#[export] Instance sample : Platform := {|
  CONTROL := 1;
  ERROR := 2;
  AUDIT := 4;
  RAW := 8;
  PRIVATE := 16;
  LEVEL1 := 32;
  LEVEL2 := 96;
  LEVEL3 := 224;
  LOG_INFO := 6;
  LOG_DAEMON := 24;
  DAEMON_NAME := str "charon";
  pthread_self := 3086;
|}.

End Logger.

(** ** More concrete inputs *)
Module Inputs.
Import Sample.

(** The instance [t1] after the key and the salt of [t2] were set. *)
Definition keyed1 : bool * private_kdf_t * heap :=
  let '(_, t, h) :=
    set_param t1 KDF_PARAM_KEY (Some [x0a; x0b; x0c; x0d]) h1 in
  set_param t KDF_PARAM_SALT (Some ascii_test) h.

Definition t3 : private_kdf_t := snd (fst keyed1).

Definition h3 : heap := snd keyed1.

(** Some calls of a user, with a derivation among them. *)
Definition calls : list call :=
  [Set_param KDF_PARAM_KEY (Some [x0a; x0b; x0c; x0d]);
   Allocate_bytes 40;
   Set_param KDF_PARAM_SALT (Some ascii_test);
   Set_param (KDF_PARAM_other 7) None;
   Allocate_bytes 0;
   Set_param KDF_PARAM_KEY None].

(** Calls that only set parameters. *)
Definition settings : list call :=
  [Set_param KDF_PARAM_KEY (Some [x0a; x0b; x0c; x0d]);
   Set_param KDF_PARAM_SALT (Some ascii_test);
   Set_param KDF_PARAM_KEY (Some [x21; x22]);
   Set_param KDF_PARAM_SALT (Some []);
   Set_param (KDF_PARAM_other 7) (Some ascii_test)].

(** A logger to the system log with every level enabled, and 35 bytes
    to dump: 32 characters '0', then 0x01, 0xff and 'A'. *)
Definition tester : Logger.private_logger_t :=
  Logger.Private_logger 255 (Logger.str "tester") None false.

Definition dumped : list byte := placeholder_key ++ [x01; xff; x41].

(** The third line of the dump of [dumped]. *)
Definition third_line : Logger.event :=
  Logger.Syslog 6 (Logger.str "[=>] [%5d ] %s %16s")
    [Logger.Arg_int 32; Logger.Arg_str (Logger.str "01 FF 41 ");
     Logger.Arg_str (Logger.str "0**A")].

End Inputs.

(** * Properties *)

(** ** Storage *)

Section Storage.

Lemma is_live_lookup h a :
  is_live h a = true -> exists b, h !! a = Some b /\ live b = true.
Proof.
  unfold is_live. destruct (h !! a) as [b|]; [eauto | discriminate].
Qed.

Lemma load_write_same h a b bs n :
  h !! a = Some b ->
  N.to_nat n = length bs ->
  load (write (Some a) bs h) (Some a) n = bs.
Proof.
  intros Hb Hn. unfold load, write.
  rewrite list_lookup_alter_eq, Hb. simpl.
  rewrite Hn. apply take_app_length.
Qed.

Lemma lookup_write_ne p bs h a :
  p <> Some a -> write p bs h !! a = h !! a.
Proof.
  destruct p as [a'|]; simpl; [|done].
  intros Hne. apply list_lookup_alter_ne. congruence.
Qed.

Lemma lookup_free_ne p h a :
  p <> Some a -> free p h !! a = h !! a.
Proof.
  destruct p as [a'|]; simpl; [|done].
  intros Hne. apply list_lookup_alter_ne. congruence.
Qed.

Lemma length_write p bs h : length (write p bs h) = length h.
Proof. destruct p; simpl; [apply length_alter | done]. Qed.

Lemma length_free p h : length (free p h) = length h.
Proof. destruct p; simpl; [apply length_alter | done]. Qed.

Lemma load_ext h g p n :
  (forall a, p = Some a -> g !! a = h !! a) -> load g p n = load h p n.
Proof.
  destruct p as [a|]; simpl; [|done].
  intros H. by rewrite (H a eq_refl).
Qed.

Lemma chunk_view_ext h g c :
  (forall a, ptr c = Some a -> g !! a = h !! a) ->
  chunk_view g c = chunk_view h c.
Proof.
  intros H. unfold chunk_view, chunk_bytes.
  destruct (ptr c) as [a|] eqn:Hp; [|done].
  f_equal. apply load_ext. intros a' [= <-]. by apply H.
Qed.

Lemma is_live_ext h g a : g !! a = h !! a -> is_live g a = is_live h a.
Proof. unfold is_live. by intros ->. Qed.

(** What [owned] says about a chunk with storage. *)
Lemma owned_Some h c a :
  owned h c = true -> ptr c = Some a ->
  exists b, h !! a = Some b /\ live b = true
            /\ length (data b) = N.to_nat (len c) /\ len c <> 0.
Proof.
  unfold owned. intros H Hp. rewrite Hp in H.
  destruct (h !! a) as [b|]; [|discriminate].
  exists b. apply andb_prop in H as [H H3]. apply andb_prop in H as [H1 H2].
  apply N.eqb_eq in H2. apply negb_true_iff, N.eqb_neq in H3.
  repeat split; [done | lia | done].
Qed.

Lemma owned_None h c : owned h c = true -> ptr c = None -> len c = 0.
Proof. unfold owned. intros H Hp. rewrite Hp in H. by apply N.eqb_eq. Qed.

Lemma owned_lt h c a :
  owned h c = true -> ptr c = Some a -> (a < length h)%nat.
Proof.
  intros H Hp. destruct (owned_Some _ _ _ H Hp) as (b & Hb & _).
  by eapply lookup_lt_Some.
Qed.

Lemma owned_ext h g c :
  (forall a, ptr c = Some a -> g !! a = h !! a) ->
  owned h c = true -> owned g c = true.
Proof.
  unfold owned. intros H. destruct (ptr c) as [a|]; [|done].
  by rewrite (H a eq_refl).
Qed.

Lemma owned_len h c : owned h c = true -> len c = view_len (chunk_view h c).
Proof.
  intros H. unfold chunk_view, chunk_bytes.
  destruct (ptr c) as [a|] eqn:Hp.
  - destruct (owned_Some _ _ _ H Hp) as (b & Hb & _ & Hl & _).
    simpl. rewrite Hb, length_take_le by lia. lia.
  - by apply owned_None in H.
Qed.

End Storage.

(** ** The chunk helpers *)

Section Chunks.
Context `{E : Externals}.

Lemma alter_new {A} (f : A -> A) (l : list A) (x : A) :
  alter f (length l) (l ++ [x]) = l ++ [f x].
Proof.
  replace (length l) with (length l + 0)%nat at 1 by lia.
  by rewrite alter_app_r.
Qed.

(** Cloning a non-empty value appends one live block that holds it. *)
Lemma chunk_clone_cons l h :
  l <> [] ->
  chunk_clone (Some l) h =
  (Chunk (Some (length h)) (N.of_nat (length l)), h ++ [Block true l]).
Proof.
  intros Hne. destruct l as [|b bs]; [done|].
  unfold chunk_clone, malloc, write. rewrite alter_new.
  unfold overwrite. cbn [live data].
  rewrite drop_ge, app_nil_r; [done|].
  rewrite length_replicate. lia.
Qed.

Lemma chunk_clone_spec v h c h' :
  chunk_clone v h = (c, h') ->
  owned h' c = true
  /\ chunk_view h' c = cloned v
  /\ (forall a, (a < length h)%nat -> h' !! a = h !! a)
  /\ (length h <= length h')%nat
  /\ (forall a, ptr c = Some a -> a = length h).
Proof.
  assert (Hempty : forall g : heap,
    owned g chunk_empty = true /\ chunk_view g chunk_empty = None
    /\ (forall a, (a < length g)%nat -> g !! a = g !! a)
    /\ (length g <= length g)%nat
    /\ (forall a, ptr chunk_empty = Some a -> a = length g)).
  { intros g. repeat split; [lia | discriminate]. }
  destruct v as [[|b bs]|]; [by intros [= <- <-] | | by intros [= <- <-]].
  clear Hempty.
  change (cloned (Some (b :: bs))) with (Some (b :: bs)).
  set (l := b :: bs). assert (Hne : l <> []) by done. clearbody l.
  rewrite chunk_clone_cons by done. intros [= <- <-].
  assert (Hnew : (h ++ [Block true l]) !! length h = Some (Block true l))
    by by rewrite list_lookup_middle.
  repeat split.
  - unfold owned. cbn [ptr len]. rewrite Hnew. cbn [live data].
    rewrite N.eqb_refl. by destruct l.
  - unfold chunk_view, chunk_bytes, load. cbn [ptr len]. rewrite Hnew.
    cbn [data]. by rewrite Nat2N.id, firstn_all.
  - intros a Ha. by apply lookup_app_l.
  - rewrite length_app. lia.
  - cbn [ptr]. by intros a [= <-].
Qed.

Lemma chunk_clear_frame c h c' h' :
  chunk_clear c h = (c', h') ->
  length h' = length h /\ (forall a, ptr c <> Some a -> h' !! a = h !! a).
Proof.
  unfold chunk_clear, chunk_free, memwipe.
  destruct (ptr c) as [a|] eqn:Hp; intros [= <- <-]; [|done].
  split.
  - by rewrite !length_alter.
  - intros a' Hne. rewrite !list_lookup_alter_ne; [done | congruence ..].
Qed.

Lemma chunk_clear_wiped c h c' h' :
  owned h c = true ->
  chunk_clear c h = (c', h') ->
  wiped h' (ptr c) (len c).
Proof.
  intros Ho. unfold chunk_clear, chunk_free, memwipe, wiped.
  destruct (ptr c) as [a|] eqn:Hp; intros [= <- <-]; [|done].
  destruct (owned_Some _ _ _ Ho Hp) as (b & Hb & _ & Hl & _).
  unfold is_live, load, free, write.
  rewrite !list_lookup_alter_eq, Hb. simpl.
  split; [done|].
  rewrite length_replicate, drop_ge, app_nil_r by lia.
  apply take_ge. rewrite length_replicate. lia.
Qed.

(** A wiped block stays wiped as long as it is not written again. *)
Lemma wiped_ext h g p n :
  (forall a, p = Some a -> g !! a = h !! a) -> wiped h p n -> wiped g p n.
Proof.
  unfold wiped. destruct p as [a|]; [|done].
  intros H [H1 H2]. split.
  - rewrite <- H1. apply is_live_ext. by apply H.
  - rewrite <- H2. by apply load_ext.
Qed.

Lemma wiped_not_live h a n : wiped h (Some a) n -> is_live h a = false.
Proof. by intros [H _]. Qed.

End Chunks.

(** ** The methods *)

Section Methods.
Context `{E : Externals}.

(** [get_bytes] reads the heap only through the key and the salt. *)
Lemma get_bytes_ext this that n b h g :
  hasher this = hasher that ->
  owned h (key this) = true -> owned h (salt this) = true ->
  owned g (key that) = true -> owned g (salt that) = true ->
  chunk_view h (key this) = chunk_view g (key that) ->
  chunk_view h (salt this) = chunk_view g (salt that) ->
  get_bytes this n b h = get_bytes that n b g.
Proof.
  intros Hh Hk Hs Hk' Hs' Vk Vs. unfold get_bytes.
  rewrite (owned_len _ _ Hk), (owned_len _ _ Hs),
    (owned_len _ _ Hk'), (owned_len _ _ Hs').
  by rewrite Hh, Vk, Vs.
Qed.

Lemma get_bytes_app this n b h l :
  owned h (key this) = true -> owned h (salt this) = true ->
  get_bytes this n b (h ++ l) = get_bytes this n b h.
Proof.
  intros Hk Hs.
  assert (forall c, owned h c = true ->
            forall a, ptr c = Some a -> (h ++ l) !! a = h !! a) as Hold.
  { intros c Hc a Ha. apply lookup_app_l. by eapply owned_lt. }
  apply get_bytes_ext; try done.
  - eapply owned_ext; [|done]. by apply Hold.
  - eapply owned_ext; [|done]. by apply Hold.
  - apply chunk_view_ext. by apply Hold.
  - apply chunk_view_ext. by apply Hold.
Qed.


Lemma backed_true n :
  backed n = true -> (n =? 0) = false /\ malloc_refuses n = false.
Proof.
  unfold backed. intros H. apply andb_prop in H as [H1 H2].
  by apply negb_true_iff in H1, H2.
Qed.

Lemma chunk_alloc_backed n h :
  backed n = true ->
  chunk_alloc n h
  = (Chunk (Some (length h)) n,
     h ++ [Block true (replicate (N.to_nat n) uninit)]).
Proof.
  intros Hb. destruct (backed_true _ Hb) as [H0 Hm].
  unfold chunk_alloc, malloc. by rewrite H0, Hm.
Qed.

Lemma chunk_alloc_unbacked n h :
  backed n = false -> chunk_alloc n h = (Chunk None n, h).
Proof.
  unfold backed, chunk_alloc. intros Hb.
  destruct (n =? 0); [done|]. by destruct (malloc_refuses n).
Qed.

Lemma allocate_bytes_pos this n h :
  backed n = true ->
  allocate_bytes this n h =
  let r := get_bytes this n false
             (h ++ [Block true (replicate (N.to_nat n) uninit)]) in
  let d := snd r ++ drop (length (snd r)) (replicate (N.to_nat n) uninit) in
  if fst r then (true, Chunk (Some (length h)) n, h ++ [Block true d])
  else (false, chunk_empty, h ++ [Block false d]).
Proof.
  intros Hn. unfold allocate_bytes. rewrite chunk_alloc_backed by done.
  cbn [ptr is_null].
  destruct (get_bytes _ _ _ _) as [ok stored]. cbn [fst snd write].
  rewrite alter_new. unfold chunk_free, free. cbn [ptr].
  rewrite alter_new. by destruct ok.
Qed.

(** Without storage the buffer handed on is [NULL], and the heap is
    left as it is. *)
Lemma allocate_bytes_null this n h :
  backed n = false ->
  allocate_bytes this n h =
  if fst (get_bytes this n true h) then (true, Chunk None n, h)
  else (false, chunk_empty, h).
Proof.
  intros Hn. unfold allocate_bytes. rewrite chunk_alloc_unbacked by done.
  cbn [ptr is_null write].
  by destruct (get_bytes this n true h) as [[] stored].
Qed.

Lemma get_bytes_chain this n b h :
  get_bytes this n b h
  = hkdf_expand_only (hasher this) (chunk_view h (key this))
      (len (key this)) (chunk_view h (salt this)) (len (salt this)) n b.
Proof. reflexivity. Qed.

(** An output buffer of [n] bytes still has [n] bytes after [stored]
    was written to its start. *)
Lemma length_filled (stored : list byte) (n : nat) :
  length (take n (stored ++ drop (length stored) (replicate n uninit))) = n.
Proof.
  rewrite length_take_le; [done|].
  rewrite length_app, length_drop, length_replicate. lia.
Qed.

Lemma derive_eq this n h :
  owned h (key this) = true -> owned h (salt this) = true ->
  derive this n h =
  let r := get_bytes this n (negb (backed n)) h in
  if fst r then (true, if backed n then filled n (snd r) else [])
  else (false, []).
Proof.
  intros Hk Hs. unfold derive. destruct (backed n) eqn:Hn; cbn [negb].
  - rewrite allocate_bytes_pos by done. cbv zeta.
    rewrite get_bytes_app by done.
    destruct (fst _); [|done].
    unfold chunk_bytes, load, filled. cbn [ptr len].
    by rewrite list_lookup_middle.
  - rewrite allocate_bytes_null by done. cbv zeta.
    by destruct (fst _).
Qed.

(** Two instances with the same digest, key and salt derive the same,
    wherever their buffers are. *)
Lemma derive_ext this that n h g :
  hasher this = hasher that ->
  owned h (key this) = true -> owned h (salt this) = true ->
  owned g (key that) = true -> owned g (salt that) = true ->
  chunk_view h (key this) = chunk_view g (key that) ->
  chunk_view h (salt this) = chunk_view g (salt that) ->
  derive this n h = derive that n g.
Proof.
  intros. rewrite !derive_eq by done.
  by rewrite (get_bytes_ext this that n (negb (backed n)) h g).
Qed.

Lemma allocate_bytes_frame this n h ok c h' :
  allocate_bytes this n h = (ok, c, h') ->
  (forall a, (a < length h)%nat -> h' !! a = h !! a)
  /\ (length h <= length h')%nat
  /\ (forall a, ptr c = Some a -> a = length h /\ (a < length h')%nat).
Proof.
  destruct (backed n) eqn:Hn.
  - rewrite allocate_bytes_pos by done. cbv zeta.
    destruct (fst _); intros [= <- <- <-];
      (split; [intros a Ha; by apply lookup_app_l|]);
      (split; [rewrite length_app; lia|]);
      cbn [ptr chunk_empty]; intros a [= <-].
    rewrite length_app. simpl. lia.
  - rewrite allocate_bytes_null by done.
    destruct (fst _); intros [= <- <- <-];
      (repeat split; [lia | discriminate | discriminate]).
Qed.

Lemma wf_parts this h :
  wf this h = true ->
  owned h (key this) = true /\ owned h (salt this) = true
  /\ separate (key this) (salt this) = true.
Proof.
  unfold wf. intros H. apply andb_prop in H as [H H3].
  by apply andb_prop in H as [H1 H2].
Qed.

Lemma wf_intro this h :
  owned h (key this) = true -> owned h (salt this) = true ->
  separate (key this) (salt this) = true -> wf this h = true.
Proof. unfold wf. by intros -> -> ->. Qed.

(** Storage that only grows keeps an instance as it is. *)
Lemma wf_grow this h g :
  (forall a, (a < length h)%nat -> g !! a = h !! a) ->
  wf this h = true ->
  wf this g = true
  /\ chunk_view g (key this) = chunk_view h (key this)
  /\ chunk_view g (salt this) = chunk_view h (salt this).
Proof.
  intros Hg Hwf. destruct (wf_parts _ _ Hwf) as (Hk & Hs & Hsep).
  assert (forall c, owned h c = true ->
            forall a, ptr c = Some a -> g !! a = h !! a) as Hold.
  { intros c Hc a Ha. apply Hg. by eapply owned_lt. }
  repeat split.
  - apply wf_intro; [| |done]; (eapply owned_ext; [|done]); by apply Hold.
  - apply chunk_view_ext. by apply Hold.
  - apply chunk_view_ext. by apply Hold.
Qed.

Lemma allocate_bytes_wf this n h ok c h' :
  wf this h = true ->
  allocate_bytes this n h = (ok, c, h') ->
  wf this h' = true
  /\ chunk_view h' (key this) = chunk_view h (key this)
  /\ chunk_view h' (salt this) = chunk_view h (salt this).
Proof.
  intros Hwf Ha. apply wf_grow; [|done].
  by destruct (allocate_bytes_frame _ _ _ _ _ _ Ha) as (H & _).
Qed.

Lemma separate_sym c d : separate c d = separate d c.
Proof.
  unfold separate. destruct (ptr c), (ptr d); try done.
  by rewrite Nat.eqb_sym.
Qed.

Lemma separate_ne c d a :
  separate c d = true -> ptr c = Some a -> ptr d <> Some a.
Proof.
  unfold separate. intros H Hc Hd. rewrite Hc, Hd in H.
  by rewrite Nat.eqb_refl in H.
Qed.

Lemma separate_fresh c d (n : nat) :
  (forall a, ptr c = Some a -> (n <= a)%nat) ->
  (forall a, ptr d = Some a -> (a < n)%nat) ->
  separate c d = true.
Proof.
  unfold separate. intros Hc Hd.
  destruct (ptr c) as [a|]; [|done]. destruct (ptr d) as [b|]; [|done].
  apply negb_true_iff, Nat.eqb_neq.
  specialize (Hc a eq_refl). specialize (Hd b eq_refl). lia.
Qed.

(** The two statements [chunk_clear(&old); old = chunk_clone(v)] of
    [set_param], next to a chunk [other] of the same instance. *)
Lemma replace_spec old other v h c1 h1 k h2 :
  owned h old = true -> owned h other = true ->
  separate old other = true ->
  chunk_clear old h = (c1, h1) ->
  chunk_clone v h1 = (k, h2) ->
  owned h2 k = true /\ owned h2 other = true /\ separate k other = true
  /\ chunk_view h2 k = cloned v
  /\ chunk_view h2 other = chunk_view h other
  /\ wiped h2 (ptr old) (len old)
  /\ (length h <= length h2)%nat
  /\ (forall a, (a < length h)%nat -> ptr old <> Some a ->
        h2 !! a = h !! a)
  /\ (forall a, ptr k = Some a -> a = length h).
Proof.
  intros Ho Hot Hsep Hclear Hclone.
  destruct (chunk_clear_frame _ _ _ _ Hclear) as (Hlen & Hfr1).
  pose proof (chunk_clear_wiped _ _ _ _ Ho Hclear) as Hw.
  destruct (chunk_clone_spec _ _ _ _ Hclone)
    as (Hk & Hv & Hfr2 & Hle & Hnew).
  rewrite Hlen in *.
  assert (Hfr : forall a, (a < length h)%nat -> ptr old <> Some a ->
                  h2 !! a = h !! a).
  { intros a Ha Hne. rewrite Hfr2 by done. by apply Hfr1. }
  assert (Hother : forall a, ptr other = Some a -> h2 !! a = h !! a).
  { intros a Ha. apply Hfr; [by apply (owned_lt h other)|].
    intros Hold. by eapply (separate_ne old other). }
  repeat split; try done.
  - by eapply owned_ext.
  - apply (separate_fresh _ _ (length h)).
    + intros a Ha. rewrite (Hnew a Ha). lia.
    + intros a Ha. by apply (owned_lt h other).
  - by apply chunk_view_ext.
  - eapply wiped_ext; [|done]. intros a Ha. apply Hfr2.
    by apply (owned_lt h old).
Qed.

Lemma set_param_key_spec this v h :
  wf this h = true ->
  exists k h',
    set_param this KDF_PARAM_KEY v h
    = (true, Private_kdf (hasher this) k (salt this), h')
    /\ wf (Private_kdf (hasher this) k (salt this)) h' = true
    /\ chunk_view h' k = cloned v
    /\ chunk_view h' (salt this) = chunk_view h (salt this)
    /\ wiped h' (ptr (key this)) (len (key this))
    /\ (length h <= length h')%nat
    /\ (forall a, (a < length h)%nat -> ptr (key this) <> Some a ->
          h' !! a = h !! a)
    /\ (forall a, ptr k = Some a -> a = length h).
Proof.
  intros Hwf. destruct (wf_parts _ _ Hwf) as (Hk & Hs & Hsep).
  unfold set_param.
  destruct (chunk_clear (key this) h) as [c1 h1] eqn:Hclear.
  destruct (chunk_clone v h1) as [k h2] eqn:Hclone.
  exists k, h2.
  destruct (replace_spec _ _ _ _ _ _ _ _ Hk Hs Hsep Hclear Hclone)
    as (? & ? & ? & ? & ? & ? & ? & ? & ?).
  repeat split; try done. by apply wf_intro.
Qed.

Lemma set_param_salt_spec this v h :
  wf this h = true ->
  exists s h',
    set_param this KDF_PARAM_SALT v h
    = (true, Private_kdf (hasher this) (key this) s, h')
    /\ wf (Private_kdf (hasher this) (key this) s) h' = true
    /\ chunk_view h' s = cloned v
    /\ chunk_view h' (key this) = chunk_view h (key this)
    /\ wiped h' (ptr (salt this)) (len (salt this))
    /\ (length h <= length h')%nat
    /\ (forall a, (a < length h)%nat -> ptr (salt this) <> Some a ->
          h' !! a = h !! a)
    /\ (forall a, ptr s = Some a -> a = length h).
Proof.
  intros Hwf. destruct (wf_parts _ _ Hwf) as (Hk & Hs & Hsep).
  unfold set_param.
  destruct (chunk_clear (salt this) h) as [c1 h1] eqn:Hclear.
  destruct (chunk_clone v h1) as [s h2] eqn:Hclone.
  exists s, h2. rewrite separate_sym in Hsep.
  destruct (replace_spec _ _ _ _ _ _ _ _ Hs Hk Hsep Hclear Hclone)
    as (? & ? & ? & ? & ? & ? & ? & ? & ?).
  repeat split; try done. apply wf_intro; try done.
  by rewrite separate_sym.
Qed.

(** Every method keeps the instance well formed. *)
Lemma set_param_wf this param v h :
  wf this h = true ->
  wf (snd (fst (set_param this param v h))) (snd (set_param this param v h))
  = true.
Proof.
  intros Hwf. destruct param as [| |n]; [| |done].
  - by destruct (set_param_key_spec this v h Hwf) as (k & h' & -> & ? & _).
  - by destruct (set_param_salt_spec this v h Hwf) as (s & h' & -> & ? & _).
Qed.

(** ** The constructor *)

Lemma init_eq name h :
  init name h
  = (Private_kdf (EVP_get_digestbyname name)
       (Chunk (Some (length h)) 32) chunk_empty,
     h ++ [Block true placeholder_key]).
Proof. unfold init. by rewrite chunk_clone_cons. Qed.

Lemma init_wf name h : wf (fst (init name h)) (snd (init name h)) = true.
Proof.
  rewrite init_eq. unfold wf, owned, separate. cbn [fst snd key salt ptr len].
  by rewrite list_lookup_middle.
Qed.

(** When the constructor returns an instance, every gate was passed. *)
Lemma create_Some algo prf h this h' :
  openssl_kdf_create algo prf h = (Some this, h') ->
  algo = KDF_PRF_PLUS
  /\ exists name md,
       enum_to_name hash_algorithm_short_names
         (hasher_algorithm_from_prf prf) = Some name
       /\ EVP_get_digestbyname name = Some md
       /\ (this, h') = init name h
       /\ fst (get_bytes this sizeof_buf false h') = true.
Proof.
  unfold openssl_kdf_create. destruct algo; try by intros [=].
  destruct (enum_to_name _ _) as [name|]; [|by intros [=]].
  destruct (init name h) as [t h1] eqn:Hinit.
  destruct (hasher t) as [md|] eqn:Hmd; cbn [is_null orb]; [|by intros [=]].
  destruct (fst (get_bytes t sizeof_buf false h1)) eqn:Hself;
    cbn [negb]; intros [= <- <-].
  split; [done|]. exists name, md. repeat split; try done.
  rewrite init_eq in Hinit. injection Hinit as <- _. done.
Qed.

End Methods.

(** ** The specification's claims *)

Section Claims.
Context `{E : Externals}.

Lemma create_wf algo prf h this h' :
  openssl_kdf_create algo prf h = (Some this, h') -> wf this h' = true.
Proof.
  intros Hc. destruct (create_Some _ _ _ _ _ Hc) as (_ & name & md & _ & _ & Hi & _).
  pose proof (init_wf name h) as Hwf. by rewrite <- Hi in Hwf.
Qed.

(** An owned chunk shows a callee what a clone of it would show. *)
Lemma cloned_view h c :
  owned h c = true -> cloned (chunk_view h c) = chunk_view h c.
Proof.
  intros Ho. pose proof (owned_len _ _ Ho) as Hl.
  unfold chunk_view in *. destruct (ptr c) as [a|] eqn:Hp; [|done].
  destruct (owned_Some _ _ _ Ho Hp) as (_ & _ & _ & _ & Hne).
  destruct (chunk_bytes h c); [|done]. simpl in Hl. lia.
Qed.

(** C1. Context isolation across salt replacement: on any instance,
    after setting the salt to [A], deriving, and setting the salt to
    [B], a derivation returns what a freshly constructed instance of
    the same digest returns once it was given the same key and the salt
    [B]: the same status and the same bytes, for every output length.
    Nothing of [A] is left. *)
Theorem salt_replacement_isolated
    this h prf g fresh g' (A B : bytes_in) (L : N) :
  wf this h = true ->
  openssl_kdf_create KDF_PRF_PLUS prf g = (Some fresh, g') ->
  hasher this = hasher fresh ->
  let '(_, t1, h1) := set_param this KDF_PARAM_SALT A h in
  let '(_, _, h2) := allocate_bytes t1 L h1 in
  let '(_, t2, h3) := set_param t1 KDF_PARAM_SALT B h2 in
  let '(_, f0, g0) :=
    set_param fresh KDF_PARAM_KEY (chunk_view h (key this)) g' in
  let '(_, f1, g1) := set_param f0 KDF_PARAM_SALT B g0 in
  derive t2 L h3 = derive f1 L g1.
Proof.
  intros Hwf Hcreate Hh.
  destruct (set_param_salt_spec this A h Hwf)
    as (s1 & h1 & -> & Hwf1 & _ & Vk1 & _).
  destruct (allocate_bytes _ L h1) as [[ok c] h2] eqn:Ha.
  destruct (allocate_bytes_wf _ _ _ _ _ _ Hwf1 Ha) as (Hwf2 & Vk2 & _).
  destruct (set_param_salt_spec _ B h2 Hwf2)
    as (s2 & h3 & -> & Hwf3 & Vs3 & Vk3 & _).
  destruct (set_param_key_spec fresh (chunk_view h (key this)) g'
              (create_wf _ _ _ _ _ Hcreate))
    as (k & g0 & -> & Hwf4 & Vk4 & _).
  destruct (set_param_salt_spec _ B g0 Hwf4)
    as (s3 & g1 & -> & Hwf5 & Vs5 & Vk5 & _).
  destruct (wf_parts _ _ Hwf3) as (Ok3 & Os3 & _).
  destruct (wf_parts _ _ Hwf5) as (Ok5 & Os5 & _).
  destruct (wf_parts _ _ Hwf) as (Ok & _).
  cbn [key salt hasher] in *.
  apply derive_ext; cbn [key salt hasher]; try done.
  - by rewrite Vk3, Vk2, Vk1, Vk5, Vk4, cloned_view.
  - by rewrite Vs3, Vs5.
Qed.

(** C7. Determinism: two derivations of the same length on an instance
    that is not modified in between return the same status and the same
    bytes, and the second leaves the bytes of the first as they were. *)
Theorem derive_deterministic this h (L : N) :
  wf this h = true ->
  let '(ok1, c1, h1) := allocate_bytes this L h in
  let '(ok2, c2, h2) := allocate_bytes this L h1 in
  ok1 = ok2
  /\ chunk_bytes h1 c1 = chunk_bytes h2 c2
  /\ chunk_bytes h2 c1 = chunk_bytes h1 c1.
Proof.
  intros Hwf.
  destruct (allocate_bytes this L h) as [[ok1 c1] h1] eqn:H1.
  destruct (allocate_bytes this L h1) as [[ok2 c2] h2] eqn:H2.
  destruct (allocate_bytes_wf _ _ _ _ _ _ Hwf H1) as (Hwf1 & Vk & Vs).
  destruct (wf_parts _ _ Hwf) as (Ok & Os & _).
  destruct (wf_parts _ _ Hwf1) as (Ok1 & Os1 & _).
  assert (Hd : derive this L h = derive this L h1)
    by by apply derive_ext.
  unfold derive in Hd. rewrite H1, H2 in Hd. injection Hd as Hok Hbytes.
  repeat split; [done | done |].
  destruct (allocate_bytes_frame _ _ _ _ _ _ H1) as (_ & _ & Hc1).
  destruct (allocate_bytes_frame _ _ _ _ _ _ H2) as (Hfr & _).
  apply load_ext. intros a Ha. apply Hfr. by apply Hc1.
Qed.

(** C4. Key replacement overwrite: after setting the key to [K1] and
    then to [K2], the instance derives what a freshly constructed
    instance of the same digest and salt derives on which only [K2] was
    set as key; the key it holds is a copy of [K2]; and both earlier
    key buffers (the one held at the start and the copy of [K1]) are
    released and hold only zero bytes. *)
Theorem key_replacement_overwrites
    this h prf g fresh g' (K1 K2 : bytes_in) (L : N) :
  wf this h = true ->
  openssl_kdf_create KDF_PRF_PLUS prf g = (Some fresh, g') ->
  hasher this = hasher fresh ->
  let '(_, t1, h1) := set_param this KDF_PARAM_KEY K1 h in
  let '(_, t2, h2) := set_param t1 KDF_PARAM_KEY K2 h1 in
  let '(_, f0, g0) :=
    set_param fresh KDF_PARAM_SALT (chunk_view h (salt this)) g' in
  let '(_, f1, g1) := set_param f0 KDF_PARAM_KEY K2 g0 in
  derive t2 L h2 = derive f1 L g1
  /\ chunk_view h2 (key t2) = cloned K2
  /\ wiped h2 (ptr (key this)) (len (key this))
  /\ wiped h2 (ptr (key t1)) (len (key t1)).
Proof.
  intros Hwf Hcreate Hh.
  destruct (wf_parts _ _ Hwf) as (Ok & Os & _).
  destruct (set_param_key_spec this K1 h Hwf)
    as (k1 & h1 & -> & Hwf1 & _ & Vs1 & W1 & Hle1 & _ & Hnew1).
  destruct (set_param_key_spec _ K2 h1 Hwf1)
    as (k2 & h2 & -> & Hwf2 & Vk2 & Vs2 & W2 & _ & Hfr2 & _).
  destruct (set_param_salt_spec fresh (chunk_view h (salt this)) g'
              (create_wf _ _ _ _ _ Hcreate))
    as (s & g0 & -> & Hwf3 & Vs3 & _).
  destruct (set_param_key_spec _ K2 g0 Hwf3)
    as (k3 & g1 & -> & Hwf4 & Vk4 & Vs4 & _).
  destruct (wf_parts _ _ Hwf2) as (Ok2 & Os2 & _).
  destruct (wf_parts _ _ Hwf4) as (Ok4 & Os4 & _).
  cbn [key salt hasher] in *.
  repeat split; try done.
  - apply derive_ext; cbn [key salt hasher]; try done.
    + by rewrite Vk2, Vk4.
    + by rewrite Vs2, Vs1, Vs4, Vs3, cloned_view.
  - eapply wiped_ext; [|exact W1]. intros a Ha.
    pose proof (owned_lt _ _ _ Ok Ha). apply Hfr2; [lia|].
    intros Hk1. apply Hnew1 in Hk1. lia.
Qed.

(** C9. Destruction hygiene: [destroy] leaves the key buffer and the
    salt buffer released and holding only zero bytes, whatever key and
    salt the instance holds (none included), and touches no other
    storage. *)
Theorem destroy_wipes this h :
  wf this h = true ->
  let h' := destroy this h in
  wiped h' (ptr (key this)) (len (key this))
  /\ wiped h' (ptr (salt this)) (len (salt this))
  /\ forall a, ptr (key this) <> Some a -> ptr (salt this) <> Some a ->
       h' !! a = h !! a.
Proof.
  intros Hwf. destruct (wf_parts _ _ Hwf) as (Ok & Os & Hsep).
  unfold destroy.
  destruct (chunk_clear (salt this) h) as [c1 h1] eqn:H1.
  destruct (chunk_clear (key this) h1) as [c2 h2] eqn:H2.
  destruct (chunk_clear_frame _ _ _ _ H1) as (_ & Hfr1).
  destruct (chunk_clear_frame _ _ _ _ H2) as (_ & Hfr2).
  assert (Ok1 : owned h1 (key this) = true).
  { eapply owned_ext; [|done]. intros a Ha. apply Hfr1.
    by apply (separate_ne _ _ _ Hsep Ha). }
  repeat split.
  - by eapply chunk_clear_wiped.
  - eapply wiped_ext; [|by eapply chunk_clear_wiped].
    intros a Ha. apply Hfr2. intros Hk.
    by apply (separate_ne _ _ _ Hsep Hk).
  - intros a Hk Hs. rewrite Hfr2 by done. by apply Hfr1.
Qed.

Lemma is_live_app_dead (h : heap) b a :
  live b = false -> is_live (h ++ [b]) a = is_live h a.
Proof.
  intros Hb. unfold is_live.
  destruct (Nat.lt_trichotomy a (length h)) as [Hlt|[->|Hgt]].
  - by rewrite lookup_app_l.
  - by rewrite list_lookup_middle, lookup_ge_None_2.
  - rewrite !lookup_ge_None_2; [done | lia |].
    rewrite length_app. simpl. lia.
Qed.

(** C6 (as the code has it). For every output length [L],
    [allocate_bytes] returns the status of [get_bytes] on the buffer
    [chunk_alloc] came back with, which it does not test.  With [TRUE]
    the chunk has length [L]: when storage was obtained it points to a
    new live buffer of exactly [L] bytes, which holds what [get_bytes]
    stored; when [L] is zero or [malloc] returned [NULL] its pointer is
    [NULL] and the heap is as it was.  With [FALSE] the chunk is the
    empty one and the buffer is released: the live storage is what it
    was before the call. *)
Theorem allocate_bytes_outcome this (L : N) h :
  let '(chunk0, h1) := chunk_alloc L h in
  let r := get_bytes this L (is_null (ptr chunk0)) h1 in
  match allocate_bytes this L h with
  | (true, c, h') =>
      fst r = true /\ len c = L
      /\ (if backed L then
            ptr c = Some (length h) /\ is_live h' (length h) = true
            /\ chunk_bytes h' c = filled L (snd r)
            /\ N.of_nat (length (chunk_bytes h' c)) = L
          else ptr c = None /\ h' = h)
  | (false, c, h') =>
      fst r = false /\ c = chunk_empty
      /\ (forall a, is_live h' a = is_live h a)
  end.
Proof.
  destruct (backed L) eqn:Hn.
  - rewrite chunk_alloc_backed, allocate_bytes_pos by done.
    cbv zeta. cbn [ptr is_null].
    destruct (get_bytes _ _ _ _) as [[] stored]; cbn [fst snd].
    + unfold chunk_bytes, load, is_live, filled. cbn [ptr len].
      rewrite list_lookup_middle by done. cbn [data live].
      repeat split. rewrite length_filled. lia.
    + repeat split. intros a. by apply is_live_app_dead.
  - rewrite chunk_alloc_unbacked, allocate_bytes_null by done.
    cbv zeta. cbn [ptr is_null].
    by destruct (fst (get_bytes this L true h)).
Qed.

(** Destroying the instance the constructor has just initialised
    leaves its key block wiped and released. *)
Lemma destroy_init name h :
  destroy (fst (init name h)) (snd (init name h))
  = h ++ [Block false (replicate 32 x00)].
Proof.
  rewrite init_eq. unfold destroy, chunk_clear, chunk_free, memwipe.
  cbn [fst snd key salt ptr len chunk_empty write free].
  by rewrite !alter_new.
Qed.

(** C5. Construction gating: the constructor returns no instance when
    the function asked for is not prf+, when the hash of the PRF has no
    name, when OpenSSL has no digest of that name, or when the
    self-test derivation fails; and then no storage stays allocated:
    the live storage is what it was before the call. *)
Theorem construction_gating algo prf h :
  algo <> KDF_PRF_PLUS
  \/ enum_to_name hash_algorithm_short_names
       (hasher_algorithm_from_prf prf) = None
  \/ (exists name,
        enum_to_name hash_algorithm_short_names
          (hasher_algorithm_from_prf prf) = Some name
        /\ (EVP_get_digestbyname name = None
            \/ fst (get_bytes (fst (init name h)) sizeof_buf false
                      (snd (init name h))) = false)) ->
  exists h',
    openssl_kdf_create algo prf h = (None, h')
    /\ forall a, is_live h' a = is_live h a.
Proof.
  intros Hgate. unfold openssl_kdf_create.
  destruct algo; try (by exists h).
  destruct Hgate as [Halgo | [Hname | (name & Hname & Hrest)]];
    [done | rewrite Hname; by exists h |].
  rewrite Hname. pose proof (destroy_init name h) as Hd.
  destruct (init name h) as [this h1] eqn:Hinit. cbn [fst snd] in *.
  assert (Hfail : is_null (hasher this)
                  || negb (fst (get_bytes this sizeof_buf false h1)) = true).
  { destruct Hrest as [Hmd | Hself].
    - rewrite init_eq in Hinit. injection Hinit as <- _.
      cbn [hasher]. by rewrite Hmd.
    - rewrite Hself. apply orb_true_r. }
  rewrite Hfail. eexists; split; [done|].
  intros a. rewrite Hd. by apply is_live_app_dead.
Qed.

(** C10. Right after a successful construction the key is the 32
    characters '0' and the salt is empty, and a derivation is not
    refused for want of a key: for every length, [get_bytes] is the
    sequence of OpenSSL calls on that key and a [NULL] info of length
    zero, and [allocate_bytes] returns its status, with what it stored
    in the buffer.  Those calls succeed for the eight bytes of the
    self-test, so [allocate_bytes] for eight bytes returns [TRUE] with
    the eight bytes they stored, provided it obtains the buffer. *)
Theorem placeholder_key_after_create algo prf h this h' :
  openssl_kdf_create algo prf h = (Some this, h') ->
  let zeros := replicate 32 "0"%byte in
  let calls := hkdf_expand_only (hasher this) (Some zeros) 32 None 0 in
  chunk_bytes h' (key this) = zeros
  /\ len (key this) = 32
  /\ salt this = chunk_empty
  /\ (forall L b, get_bytes this L b h' = calls L b)
  /\ (forall L,
        derive this L h'
        = if fst (calls L (negb (backed L)))
          then (true,
                if backed L then filled L (snd (calls L false)) else [])
          else (false, []))
  /\ fst (calls 8 false) = true
  /\ (backed 8 = true ->
      exists c h'',
        allocate_bytes this 8 h' = (true, c, h'')
        /\ chunk_bytes h'' c = filled 8 (snd (calls 8 false))
        /\ N.of_nat (length (chunk_bytes h'' c)) = 8).
Proof.
  intros Hc. cbv zeta.
  pose proof (create_wf _ _ _ _ _ Hc) as Hwf.
  destruct (wf_parts _ _ Hwf) as (Ok & Os & _).
  destruct (create_Some _ _ _ _ _ Hc)
    as (_ & name & md & _ & _ & Hi & Hself).
  rewrite init_eq in Hi. injection Hi as Hthis ->.
  assert (Hkey : key this = Chunk (Some (length h)) 32) by by rewrite Hthis.
  assert (Hsalt : salt this = chunk_empty) by by rewrite Hthis.
  assert (Hbytes : chunk_bytes (h ++ [Block true placeholder_key]) (key this)
                   = replicate 32 "0"%byte).
  { unfold chunk_bytes, load. rewrite Hkey. cbn [ptr len].
    by rewrite list_lookup_middle. }
  assert (Hcalls : forall L b,
    get_bytes this L b (h ++ [Block true placeholder_key])
    = hkdf_expand_only (hasher this) (Some (replicate 32 "0"%byte)) 32
        None 0 L b).
  { intros L b. rewrite get_bytes_chain. unfold chunk_view.
    rewrite Hbytes, Hsalt, Hkey. done. }
  split; [done|]. split; [by rewrite Hkey|]. split; [done|].
  split; [done|]. split; [|split].
  - intros L. rewrite derive_eq, Hcalls by done.
    destruct (backed L) eqn:Hb; by cbn [negb].
  - by rewrite <- Hcalls.
  - intros Hb. rewrite allocate_bytes_pos by done. cbv zeta.
    rewrite get_bytes_app by done.
    unfold sizeof_buf in Hself. rewrite Hself.
    eexists _, _. split; [done|].
    unfold chunk_bytes, load. cbn [ptr len].
    rewrite list_lookup_middle by done. cbn [data].
    rewrite Hcalls. split; [done|]. rewrite length_filled. lia.
Qed.

(** C2 (as the code has it). A parameter kind other than the key and
    the salt is accepted: [set_param] returns [TRUE], and the instance
    and the storage are what they were. *)
Theorem set_param_other_ignored this (n : Z) (chunk : bytes_in) h :
  set_param this (KDF_PARAM_other n) chunk h = (true, this, h).
Proof. reflexivity. Qed.

(** C3 (as the code has it). [get_length] returns [SIZE_MAX], the
    largest [size_t], for every instance: the digest chosen at
    construction has no part in it. *)
Theorem get_length_is_size_max this :
  get_length this = SIZE_MAX /\ get_length this = 18446744073709551615.
Proof. split; reflexivity. Qed.


End Claims.

(** ** The code on concrete inputs *)

Section Runs.
Import Sample.

Example create_sha256 :
  openssl_kdf_create KDF_PRF_PLUS PRF_HMAC_SHA2_256 [] = (Some t0, h0).
Proof. reflexivity. Qed.

Example keyed_state :
  t2 = Private_kdf (Some (Md 32)) (Chunk (Some 1%nat) 4)
         (Chunk (Some 2%nat) 4)
  /\ h2 = [Block false (replicate 32 x00);
           Block true [x0a; x0b; x0c; x0d];
           Block true ascii_test].
Proof. split; reflexivity. Qed.

(** The sample provider does tell salts apart. *)
Example salt_matters :
  derive t2 8 h2 <> derive t0 8 h0
  /\ fst (derive t2 8 h2) = true /\ fst (derive t0 8 h0) = true.
Proof. vm_compute. repeat split; congruence. Qed.

(** Its info field only grows: a context used for a second salt would
    carry the first one along.  [get_bytes] never meets this, since it
    starts from a new context each time. *)
Example info_accumulates :
  let c0 := Ctx true (Some (Md 32)) 2 (Some placeholder_key) [] in
  let c1 := snd (add1_hkdf_info c0 (Some ascii_test) 4) in
  let c2 := snd (add1_hkdf_info c1 (Some [xfe; xff]) 2) in
  c_info c2 = ascii_test ++ [xfe; xff]
  /\ pkey_derive c2 false 8
     <> pkey_derive (snd (add1_hkdf_info c0 (Some [xfe; xff]) 2)) false 8.
Proof. vm_compute. split; [reflexivity | congruence]. Qed.

(** The key replacement scenario on two new instances: [K1] then [K2]
    on one, only [K2] on the other. *)
Example key_overwrite_on_new_instances :
  let '(_, a1, k1) := set_param t0 KDF_PARAM_KEY (Some [x11; x12]) h0 in
  let '(_, a2, k2) := set_param a1 KDF_PARAM_KEY (Some [x21; x22]) k1 in
  let '(_, b1, g1) := set_param t1 KDF_PARAM_KEY (Some [x21; x22]) h1 in
  derive a2 64 k2 = derive b1 64 g1 /\ fst (derive a2 64 k2) = true.
Proof. vm_compute. split; reflexivity. Qed.

(** 255 blocks of 32 bytes is the most the sample provider expands. *)
Example sample_limit :
  fst (derive t0 8160 h0) = true /\ fst (derive t0 8161 h0) = false.
Proof. split; vm_compute; reflexivity. Qed.

(** C1 on the keyed instance: salts "test" and then two other bytes,
    against a construction in other storage. *)
Lemma salt_replacement_isolated_witness :
  wf t2 h2 = true
  /\ openssl_kdf_create KDF_PRF_PLUS PRF_HMAC_SHA2_256 busy = (Some t1, h1)
  /\ hasher t2 = hasher t1
  /\ let '(_, a1, k1) :=
       set_param t2 KDF_PARAM_SALT (Some ascii_test) h2 in
     let '(_, _, k2) := allocate_bytes a1 40 k1 in
     let '(_, a2, k3) := set_param a1 KDF_PARAM_SALT (Some [xfe; xff]) k2 in
     let '(_, f0, g0) :=
       set_param t1 KDF_PARAM_KEY (chunk_view h2 (key t2)) h1 in
     let '(_, f1, g1) := set_param f0 KDF_PARAM_SALT (Some [xfe; xff]) g0 in
     derive a2 40 k3 = derive f1 40 g1.
Proof.
  split; [reflexivity|]. split; [reflexivity|]. split; [reflexivity|].
  apply (salt_replacement_isolated (E := externals) t2 h2 PRF_HMAC_SHA2_256 busy t1 h1
           (Some ascii_test) (Some [xfe; xff]) 40); reflexivity.
Defined.

Lemma key_replacement_overwrites_witness :
  wf t2 h2 = true
  /\ openssl_kdf_create KDF_PRF_PLUS PRF_HMAC_SHA2_256 busy = (Some t1, h1)
  /\ hasher t2 = hasher t1
  /\ let '(_, a1, k1) := set_param t2 KDF_PARAM_KEY (Some [x11; x12]) h2 in
     let '(_, a2, k2) := set_param a1 KDF_PARAM_KEY (Some [x21; x22; x23]) k1 in
     let '(_, f0, g0) :=
       set_param t1 KDF_PARAM_SALT (chunk_view h2 (salt t2)) h1 in
     let '(_, f1, g1) :=
       set_param f0 KDF_PARAM_KEY (Some [x21; x22; x23]) g0 in
     derive a2 16 k2 = derive f1 16 g1
     /\ chunk_view k2 (key a2) = cloned (Some [x21; x22; x23])
     /\ wiped k2 (ptr (key t2)) (len (key t2))
     /\ wiped k2 (ptr (key a1)) (len (key a1)).
Proof.
  split; [reflexivity|]. split; [reflexivity|]. split; [reflexivity|].
  apply (key_replacement_overwrites (E := externals) t2 h2 PRF_HMAC_SHA2_256 busy t1 h1
           (Some [x11; x12]) (Some [x21; x22; x23]) 16); reflexivity.
Defined.

Lemma derive_deterministic_witness :
  wf t2 h2 = true
  /\ let '(ok1, c1, k1) := allocate_bytes t2 40 h2 in
     let '(ok2, c2, k2) := allocate_bytes t2 40 k1 in
     ok1 = ok2
     /\ chunk_bytes k1 c1 = chunk_bytes k2 c2
     /\ chunk_bytes k2 c1 = chunk_bytes k1 c1.
Proof.
  split; [reflexivity|].
  apply (derive_deterministic (E := externals) t2 h2 40). reflexivity.
Defined.

Lemma destroy_wipes_witness :
  wf t2 h2 = true
  /\ let h' := destroy t2 h2 in
     wiped h' (ptr (key t2)) (len (key t2))
     /\ wiped h' (ptr (salt t2)) (len (salt t2))
     /\ forall a, ptr (key t2) <> Some a -> ptr (salt t2) <> Some a ->
          h' !! a = h2 !! a.
Proof.
  split; [reflexivity|].
  apply (destroy_wipes (E := externals) t2 h2). reflexivity.
Defined.

(** C5 where the name "md5" is found but the provider has no such
    digest. *)
Lemma construction_gating_witness :
  (KDF_PRF_PLUS <> KDF_PRF_PLUS
   \/ enum_to_name hash_algorithm_short_names
        (hasher_algorithm_from_prf PRF_HMAC_MD5) = None
   \/ (exists name,
         enum_to_name hash_algorithm_short_names
           (hasher_algorithm_from_prf PRF_HMAC_MD5) = Some name
         /\ (EVP_get_digestbyname name = None
             \/ fst (get_bytes (fst (init name busy)) sizeof_buf false
                       (snd (init name busy))) = false)))
  /\ exists h',
       openssl_kdf_create KDF_PRF_PLUS PRF_HMAC_MD5 busy = (None, h')
       /\ forall a, is_live h' a = is_live busy a.
Proof.
  assert (Hgate :
    KDF_PRF_PLUS <> KDF_PRF_PLUS
    \/ enum_to_name hash_algorithm_short_names
         (hasher_algorithm_from_prf PRF_HMAC_MD5) = None
    \/ (exists name,
          enum_to_name hash_algorithm_short_names
            (hasher_algorithm_from_prf PRF_HMAC_MD5) = Some name
          /\ (EVP_get_digestbyname name = None
              \/ fst (get_bytes (fst (init name busy)) sizeof_buf false
                        (snd (init name busy))) = false))).
  { right. right. exists "md5"%string. split; [reflexivity|].
    left. reflexivity. }
  split; [exact Hgate|].
  exact (construction_gating (E := externals) KDF_PRF_PLUS PRF_HMAC_MD5 busy Hgate).
Defined.

Lemma placeholder_key_after_create_witness :
  openssl_kdf_create KDF_PRF_PLUS PRF_HMAC_SHA2_256 busy = (Some t1, h1)
  /\ let zeros := replicate 32 "0"%byte in
     let calls := hkdf_expand_only (hasher t1) (Some zeros) 32 None 0 in
     chunk_bytes h1 (key t1) = zeros
     /\ len (key t1) = 32
     /\ salt t1 = chunk_empty
     /\ (forall L b, get_bytes t1 L b h1 = calls L b)
     /\ (forall L,
           derive t1 L h1
           = if fst (calls L (negb (backed L)))
             then (true,
                   if backed L then filled L (snd (calls L false)) else [])
             else (false, []))
     /\ fst (calls 8 false) = true
     /\ (backed 8 = true ->
         exists c h'',
           allocate_bytes t1 8 h1 = (true, c, h'')
           /\ chunk_bytes h'' c = filled 8 (snd (calls 8 false))
           /\ N.of_nat (length (chunk_bytes h'' c)) = 8).
Proof.
  split; [reflexivity|].
  apply (placeholder_key_after_create (E := externals) KDF_PRF_PLUS
           PRF_HMAC_SHA2_256 busy).
  reflexivity.
Defined.

(** What the placeholder key gives for eight bytes with this
    provider. *)
Example placeholder_derivation :
  backed 8 = true
  /\ derive t1 8 h1 = (true, [xa8; x6e; x33; xf9; xbe; x84; x4a; x0f]).
Proof. split; reflexivity. Qed.

(** C2 as the specification states it fails: the call is not refused. *)
Lemma set_param_other_not_refused :
  ~ (fst (fst (set_param t2 (KDF_PARAM_other 2) (Some ascii_test) h2))
     = false).
Proof. vm_compute. discriminate. Qed.

(** C3 as the specification states it fails: for SHA-256 the ceiling of
    the expansion is 255 * 32 = 8160 bytes, and [get_length] returns
    something else. *)
Lemma get_length_not_expansion_ceiling :
  hasher t0 = Some (Md 32)
  /\ ~ (get_length t0 = 255 * EVP_MD_size (Md 32)).
Proof. split; [reflexivity|]. vm_compute. discriminate. Qed.

(** With this provider, which does not expand into a [NULL] buffer,
    the request of zero bytes is not accepted, and [allocate_bytes]
    returns what the provider said. *)
Example zero_length_with_strict_provider :
  openssl_kdf_create KDF_PRF_PLUS PRF_HMAC_SHA2_256 [] = (Some t0, h0)
  /\ allocate_bytes t0 0 h0 = (false, chunk_empty, h0).
Proof. split; reflexivity. Qed.

End Runs.

(** ** With a provider that answers a size query *)

Section SizingRuns.
Import Sizing.

Example create_sizing :
  openssl_kdf_create KDF_PRF_PLUS Sample.PRF_HMAC_SHA2_256 [] = (Some t0, h0).
Proof. reflexivity. Qed.

(** C6 as the specification states it fails: asked for [SIZE_MAX]
    bytes, which is what [get_length] allows, [malloc] has nothing to
    give, the [NULL] buffer is taken for a size query and answered with
    success, and [allocate_bytes] returns [TRUE] with a chunk of length
    [SIZE_MAX] that has no bytes at all. *)
Lemma derive_true_without_buffer :
  get_length t0 = SIZE_MAX
  /\ allocate_bytes t0 SIZE_MAX h0 = (true, Chunk None SIZE_MAX, h0)
  /\ ~ (N.of_nat (length (chunk_bytes h0 (Chunk None SIZE_MAX)))
        = SIZE_MAX).
Proof.
  split; [reflexivity|]. split; [reflexivity|]. vm_compute. discriminate.
Qed.


End SizingRuns.

(** * Further properties of the key derivation function *)

Section More.
Context `{E : Externals}.

Lemma chunk_clear_lookup h c a :
  owned h c = true -> ptr c = Some a ->
  snd (chunk_clear c h) !! a
  = Some (Block false (replicate (N.to_nat (len c)) x00)).
Proof.
  intros Ho Hp. destruct (owned_Some _ _ _ Ho Hp) as (b & Hb & _ & Hl & _).
  unfold chunk_clear, chunk_free, memwipe, free, write. rewrite Hp.
  cbn [snd]. rewrite !list_lookup_alter_eq, Hb. simpl.
  unfold kill, overwrite. cbn [data live].
  by rewrite length_replicate, drop_ge, app_nil_r by lia.
Qed.

Lemma chunk_clone_new v h c h' a b :
  chunk_clone v h = (c, h') ->
  (length h <= a)%nat -> h' !! a = Some b -> ptr c = Some a.
Proof.
  assert (Hsame : forall g : heap, (length g <= a)%nat -> g !! a = Some b ->
                    ptr chunk_empty = Some a).
  { intros g Hle Hb. apply lookup_lt_Some in Hb. lia. }
  destruct v as [[|x l]|]; [intros [= <- <-]; by apply Hsame | |
                            intros [= <- <-]; by apply Hsame].
  rewrite chunk_clone_cons by done. intros [= <- <-] Hle Hb.
  cbn [ptr]. f_equal. apply lookup_lt_Some in Hb.
  rewrite length_app in Hb. simpl in Hb. lia.
Qed.

Lemma chunk_bytes_of_view h c v :
  chunk_view h c = cloned v -> chunk_bytes h c = default [] v.
Proof.
  unfold chunk_view, chunk_bytes.
  destruct (ptr c) as [a|]; destruct v as [[|x l]|]; simpl; congruence.
Qed.

(** X1. The constructor returns an instance exactly when the function
    asked for is prf+, the hash of the PRF has a name, OpenSSL has a
    digest of that name and the self-test derivation succeeds; the
    instance is then the initialised one, with that digest. *)
Theorem create_succeeds_iff algo prf h this h' :
  openssl_kdf_create algo prf h = (Some this, h')
  <-> algo = KDF_PRF_PLUS
      /\ exists name md,
           enum_to_name hash_algorithm_short_names
             (hasher_algorithm_from_prf prf) = Some name
           /\ EVP_get_digestbyname name = Some md
           /\ hasher this = Some md
           /\ (this, h') = init name h
           /\ fst (get_bytes this sizeof_buf false h') = true.
Proof.
  split.
  - intros Hc. destruct (create_Some _ _ _ _ _ Hc)
      as (Ha & name & md & Hn & Hmd & Hi & Hs).
    split; [done|]. exists name, md. repeat split; try done.
    rewrite init_eq in Hi. injection Hi as -> _. done.
  - intros (-> & name & md & Hn & Hmd & Hh & Hi & Hs).
    unfold openssl_kdf_create. rewrite Hn, <- Hi, Hh, Hs. done.
Qed.

(** X2. Setting the key or the salt always succeeds, and the instance
    then holds exactly the bytes it was given: nothing for a [NULL] or
    empty chunk, otherwise a copy of the same length. *)
Theorem set_param_stores_value this (v : bytes_in) h :
  wf this h = true ->
  (let '(ok, t, h') := set_param this KDF_PARAM_KEY v h in
   ok = true /\ chunk_bytes h' (key t) = default [] v
   /\ len (key t) = N.of_nat (length (default [] v)))
  /\ (let '(ok, t, h') := set_param this KDF_PARAM_SALT v h in
      ok = true /\ chunk_bytes h' (salt t) = default [] v
      /\ len (salt t) = N.of_nat (length (default [] v))).
Proof.
  intros Hwf. split.
  - destruct (set_param_key_spec this v h Hwf)
      as (k & h' & -> & Hwf' & Vk & _).
    destruct (wf_parts _ _ Hwf') as (Ok & _). cbn [key] in *.
    pose proof (chunk_bytes_of_view _ _ _ Vk) as Hb.
    repeat split; [done|].
    rewrite (owned_len _ _ Ok), Vk. by destruct v as [[|x l]|].
  - destruct (set_param_salt_spec this v h Hwf)
      as (k & h' & -> & Hwf' & Vk & _).
    destruct (wf_parts _ _ Hwf') as (_ & Os & _). cbn [salt] in *.
    pose proof (chunk_bytes_of_view _ _ _ Vk) as Hb.
    repeat split; [done|].
    rewrite (owned_len _ _ Os), Vk. by destruct v as [[|x l]|].
Qed.

(** X3. Setting one parameter leaves the other alone: after the key is
    set the salt is the same chunk with the same bytes, after the salt
    is set the key is, and the digest is never changed. *)
Theorem set_param_leaves_other this (v : bytes_in) h :
  wf this h = true ->
  (let '(_, t, h') := set_param this KDF_PARAM_KEY v h in
   hasher t = hasher this /\ salt t = salt this
   /\ chunk_bytes h' (salt t) = chunk_bytes h (salt this))
  /\ (let '(_, t, h') := set_param this KDF_PARAM_SALT v h in
      hasher t = hasher this /\ key t = key this
      /\ chunk_bytes h' (key t) = chunk_bytes h (key this)).
Proof.
  intros Hwf.
  assert (Hv : forall g g' c, chunk_view g' c = chunk_view g c ->
                 chunk_bytes g' c = chunk_bytes g c).
  { intros g g' c. unfold chunk_view, chunk_bytes.
    destruct (ptr c); [congruence | done]. }
  split.
  - destruct (set_param_key_spec this v h Hwf)
      as (k & h' & -> & _ & _ & Vs & _).
    repeat split. by apply Hv.
  - destruct (set_param_salt_spec this v h Hwf)
      as (k & h' & -> & _ & _ & Vs & _).
    repeat split. by apply Hv.
Qed.

(** X4. An empty value needs no storage: for a [NULL] chunk and for a
    chunk of length zero alike, [set_param] leaves the parameter as the
    empty chunk and the heap no larger than it was. *)
Theorem set_param_empty this param (v : bytes_in) h :
  default [] v = [] ->
  let '(_, t, h') := set_param this param v h in
  length h' = length h
  /\ (param = KDF_PARAM_KEY -> key t = chunk_empty)
  /\ (param = KDF_PARAM_SALT -> salt t = chunk_empty).
Proof.
  intros Hv.
  assert (Hclone : forall g, chunk_clone v g = (chunk_empty, g)).
  { intros g. destruct v as [[|x l]|]; [done | discriminate | done]. }
  destruct param as [| |n]; cbn [set_param].
  - destruct (chunk_clear (key this) h) as [c1 h1] eqn:Hc.
    rewrite Hclone. destruct (chunk_clear_frame _ _ _ _ Hc) as (Hl & _).
    repeat split; [done | discriminate].
  - destruct (chunk_clear (salt this) h) as [c1 h1] eqn:Hc.
    rewrite Hclone. destruct (chunk_clear_frame _ _ _ _ Hc) as (Hl & _).
    repeat split; [done | discriminate].
  - repeat split; discriminate.
Qed.

(** X5. [allocate_bytes] changes no storage that existed before the
    call: it adds one block when it obtained storage for the output and
    none when it did not ([out_len] zero, or [NULL] from [malloc]), and
    a chunk it returns with a pointer points to the block it added, so
    never to the key or the salt. *)
Theorem allocate_bytes_adds_one_block this (L : N) h :
  let '(_, c, h') := allocate_bytes this L h in
  (forall a, (a < length h)%nat -> h' !! a = h !! a)
  /\ length h' = (length h + if backed L then 1 else 0)%nat
  /\ (forall a, ptr c = Some a -> a = length h /\ backed L = true).
Proof.
  destruct (backed L) eqn:Hn.
  - rewrite allocate_bytes_pos by done. cbv zeta.
    destruct (fst _);
      (split; [intros a Ha; by apply lookup_app_l|]);
      (split; [by rewrite length_app|]);
      cbn [ptr chunk_empty]; [|discriminate].
    by intros a [= <-].
  - rewrite allocate_bytes_null by done.
    destruct (fst _); (repeat split; [lia | discriminate | discriminate]).
Qed.

(** X6. What is derived depends on the digest, the bytes of the key
    and the bytes of the salt only: two well-formed instances that
    agree on these derive the same for every length, wherever their
    buffers lie and whatever else the two heaps hold. *)
Theorem derive_depends_on_contents this that (L : N) h g :
  wf this h = true -> wf that g = true ->
  hasher this = hasher that ->
  chunk_bytes h (key this) = chunk_bytes g (key that) ->
  chunk_bytes h (salt this) = chunk_bytes g (salt that) ->
  derive this L h = derive that L g.
Proof.
  intros Hwf Hwf' Hh Hk Hs.
  destruct (wf_parts _ _ Hwf) as (Ok & Os & _).
  destruct (wf_parts _ _ Hwf') as (Ok' & Os' & _).
  assert (Hv : forall c d, owned h c = true -> owned g d = true ->
                 chunk_bytes h c = chunk_bytes g d ->
                 chunk_view h c = chunk_view g d).
  { intros c d Hc Hd Hb.
    pose proof (owned_len _ _ Hc) as Lc. pose proof (owned_len _ _ Hd) as Ld.
    unfold chunk_view in *.
    destruct (ptr c) as [a|] eqn:Pc, (ptr d) as [a'|] eqn:Pd;
      [by rewrite Hb | | | done].
    - destruct (owned_Some _ _ _ Hc Pc) as (_ & _ & _ & _ & Hne).
      apply owned_None in Hd; [|done]. simpl in Lc.
      rewrite Hb in Lc. unfold chunk_bytes in Lc. rewrite Pd in Lc.
      simpl in Lc. lia.
    - destruct (owned_Some _ _ _ Hd Pd) as (_ & _ & _ & _ & Hne).
      apply owned_None in Hc; [|done]. simpl in Ld.
      rewrite <- Hb in Ld. unfold chunk_bytes in Ld. rewrite Pc in Ld.
      simpl in Ld. lia. }
  apply derive_ext; try done; by apply Hv.
Qed.

(** *** Sequences of calls *)

Lemma kept_init algo prf h0 this h1 :
  openssl_kdf_create algo prf h0 = (Some this, h1) ->
  tidy (length h0) h0 this h1.
Proof.
  intros Hc. pose proof (create_wf _ _ _ _ _ Hc) as Hwf.
  destruct (create_Some _ _ _ _ _ Hc) as (_ & name & md & _ & _ & Hi & _).
  rewrite init_eq in Hi. injection Hi as -> ->.
  unfold tidy, kept. cbn [key salt ptr chunk_empty].
  split; [split; [exact Hwf | split; [|split]] |].
  - rewrite length_app. lia.
  - intros a Ha. by apply lookup_app_l.
  - intros a [[= <-]|[=]]. done.
  - intros a b Hle Hb. left. f_equal.
    apply lookup_lt_Some in Hb. rewrite length_app in Hb. simpl in Hb. lia.
Qed.

Lemma kept_set_param n h0 this param v h :
  kept n h0 this h ->
  kept n h0 (snd (fst (set_param this param v h)))
    (snd (set_param this param v h)).
Proof.
  intros (Hwf & Hn & Hpre & Hptr).
  destruct (wf_parts _ _ Hwf) as (Ok & Os & _).
  destruct param as [| |m]; [| |done].
  - destruct (set_param_key_spec this v h Hwf)
      as (k & h' & -> & Hwf' & _ & _ & _ & Hle & Hfr & Hnew).
    cbn [fst snd key salt]. repeat split; [done | lia | |].
    + intros a Ha. rewrite Hfr; [by apply Hpre | lia |].
      intros Hk. specialize (Hptr a (or_introl Hk)). lia.
    + intros a [Hk|Hs]; [rewrite (Hnew a Hk); lia | by apply Hptr; right].
  - destruct (set_param_salt_spec this v h Hwf)
      as (k & h' & -> & Hwf' & _ & _ & _ & Hle & Hfr & Hnew).
    cbn [fst snd key salt]. repeat split; [done | lia | |].
    + intros a Ha. rewrite Hfr; [by apply Hpre | lia |].
      intros Hk. specialize (Hptr a (or_intror Hk)). lia.
    + intros a [Hk|Hs]; [by apply Hptr; left | rewrite (Hnew a Hs); lia].
Qed.

Lemma kept_allocate_bytes n h0 this L h :
  kept n h0 this h ->
  kept n h0 this (snd (allocate_bytes this L h)).
Proof.
  intros (Hwf & Hn & Hpre & Hptr).
  destruct (allocate_bytes this L h) as [[ok c] h'] eqn:Ha. cbn [snd].
  destruct (allocate_bytes_frame _ _ _ _ _ _ Ha) as (Hfr & Hle & _).
  destruct (allocate_bytes_wf _ _ _ _ _ _ Hwf Ha) as (Hwf' & _).
  repeat split; [done | lia | | done].
  intros a Hlt. rewrite Hfr; [by apply Hpre | lia].
Qed.

Lemma set_param_hasher this param v h :
  hasher (snd (fst (set_param this param v h))) = hasher this.
Proof.
  destruct param; cbn [set_param]; [| |done].
  - by destruct (chunk_clear _ _), (chunk_clone _ _).
  - by destruct (chunk_clear _ _), (chunk_clone _ _).
Qed.

(** The blocks after [chunk_clear(&old); old = chunk_clone(v)]. *)
Lemma replace_blocks old v h c1 h1 k h2 a b :
  owned h old = true ->
  chunk_clear old h = (c1, h1) ->
  chunk_clone v h1 = (k, h2) ->
  h2 !! a = Some b ->
  (ptr old = Some a /\ dead_zero b)
  \/ (ptr old <> Some a /\ h !! a = Some b)
  \/ ptr k = Some a.
Proof.
  intros Ho Hclear Hclone Hb.
  destruct (chunk_clear_frame _ _ _ _ Hclear) as (Hlen & Hfr1).
  destruct (chunk_clone_spec _ _ _ _ Hclone) as (_ & _ & Hfr2 & _ & _).
  destruct (Nat.lt_ge_cases a (length h1)) as [Hlt|Hge].
  - rewrite Hfr2 in Hb by done.
    destruct (decide (ptr old = Some a)) as [Hold|Hne].
    + left. split; [done|].
      pose proof (chunk_clear_lookup _ _ _ Ho Hold) as Hz.
      rewrite Hclear in Hz. cbn [snd] in Hz. rewrite Hz in Hb.
      injection Hb as <-. split; [done|]. cbn [data].
      by rewrite length_replicate.
    + right. left. split; [done|]. by rewrite <- Hfr1.
  - right. right. by eapply chunk_clone_new.
Qed.

Lemma tidy_set_param n h0 this param v h :
  tidy n h0 this h ->
  tidy n h0 (snd (fst (set_param this param v h)))
    (snd (set_param this param v h)).
Proof.
  intros (Hk & Hz). split; [by apply kept_set_param|].
  destruct Hk as (Hwf & _). destruct (wf_parts _ _ Hwf) as (Ok & Os & _).
  destruct param as [| |m]; [| |done]; cbn [set_param].
  - destruct (chunk_clear (key this) h) as [c1 h1] eqn:Hclear.
    destruct (chunk_clone v h1) as [k h2] eqn:Hclone.
    cbn [fst snd key salt]. intros a b Hle Hb.
    destruct (replace_blocks _ _ _ _ _ _ _ _ _ Ok Hclear Hclone Hb)
      as [[_ Hd] | [[Hne Hb'] | Hnew]]; [by right; right | | by left].
    destruct (Hz a b Hle Hb') as [? | [? | ?]];
      [done | by right; left | by right; right].
  - destruct (chunk_clear (salt this) h) as [c1 h1] eqn:Hclear.
    destruct (chunk_clone v h1) as [k h2] eqn:Hclone.
    cbn [fst snd key salt]. intros a b Hle Hb.
    destruct (replace_blocks _ _ _ _ _ _ _ _ _ Os Hclear Hclone Hb)
      as [[_ Hd] | [[Hne Hb'] | Hnew]]; [by right; right | | by right; left].
    destruct (Hz a b Hle Hb') as [? | [? | ?]];
      [by left | done | by right; right].
Qed.

(** X7. Whatever calls a user makes on an instance after its
    construction, the instance stays well formed (so the statements
    above apply to it), its digest stays the one chosen at
    construction, its key and salt lie in storage of its own, and no
    block that existed before the construction is ever changed. *)
Theorem calls_keep_instance algo prf h0 this h1 (cs : list call) :
  openssl_kdf_create algo prf h0 = (Some this, h1) ->
  let '(t, h) := run cs this h1 in
  wf t h = true
  /\ hasher t = hasher this
  /\ (forall a, (a < length h0)%nat -> h !! a = h0 !! a)
  /\ (forall a, ptr (key t) = Some a \/ ptr (salt t) = Some a ->
        (length h0 <= a)%nat).
Proof.
  intros Hc. destruct (kept_init _ _ _ _ _ Hc) as (Hk & _).
  clear Hc. revert this h1 Hk.
  induction cs as [|[param v|L] cs IH]; intros this h1 Hk.
  - destruct Hk as (? & _ & ? & ?). done.
  - cbn [run]. pose proof (kept_set_param _ _ _ param v _ Hk) as Hk'.
    pose proof (set_param_hasher this param v h1) as Hh.
    destruct (set_param this param v h1) as [[ok t] h']. cbn [fst snd] in *.
    specialize (IH t h' Hk'). destruct (run cs t h') as [t' h''].
    by rewrite <- Hh.
  - cbn [run]. pose proof (kept_allocate_bytes _ _ _ L _ Hk) as Hk'.
    destruct (allocate_bytes this L h1) as [[ok c] h']. cbn [snd] in *.
    by apply IH.
Qed.

(** X8. From construction to destruction no key or salt is left behind:
    after any sequence of [set_param] calls and [destroy], every block
    allocated since the construction (the placeholder key and every
    copy of a key or salt ever set) is released and holds only zero
    bytes, and the blocks that existed before are unchanged. *)
Theorem lifecycle_leaves_nothing algo prf h0 this h1 (cs : list call) :
  openssl_kdf_create algo prf h0 = (Some this, h1) ->
  forallb is_set_param cs = true ->
  let '(t, h) := run cs this h1 in
  let h' := destroy t h in
  (forall a, (a < length h0)%nat -> h' !! a = h0 !! a)
  /\ (forall a b, (length h0 <= a)%nat -> h' !! a = Some b -> dead_zero b).
Proof.
  intros Hc Hset. pose proof (kept_init _ _ _ _ _ Hc) as Ht.
  clear Hc. revert this h1 Ht.
  induction cs as [|[param v|L] cs IH]; intros this h1 Ht;
    [| |discriminate].
  - cbn [run]. destruct Ht as ((Hwf & Hn & Hpre & Hptr) & Hz).
    destruct (wf_parts _ _ Hwf) as (Ok & Os & Hsep).
    unfold destroy.
    destruct (chunk_clear (salt this) h1) as [c1 g1] eqn:H1.
    destruct (chunk_clear (key this) g1) as [c2 g2] eqn:H2.
    destruct (chunk_clear_frame _ _ _ _ H1) as (_ & Hfr1).
    destruct (chunk_clear_frame _ _ _ _ H2) as (_ & Hfr2).
    assert (Ok1 : owned g1 (key this) = true).
    { eapply owned_ext; [|done]. intros a Ha. apply Hfr1.
      by apply (separate_ne _ _ _ Hsep Ha). }
    split.
    + intros a Ha. rewrite Hfr2, Hfr1; [by apply Hpre | |].
      * intros Hs. specialize (Hptr a (or_intror Hs)). lia.
      * intros Hk. specialize (Hptr a (or_introl Hk)). lia.
    + intros a b Hle Hb.
      destruct (decide (ptr (key this) = Some a)) as [Hk|Hnk].
      { pose proof (chunk_clear_lookup _ _ _ Ok1 Hk) as Hl.
        rewrite H2 in Hl. cbn [snd] in Hl. rewrite Hl in Hb.
        injection Hb as <-. split; [done|]. cbn [data].
        by rewrite length_replicate. }
      rewrite Hfr2 in Hb by done.
      destruct (decide (ptr (salt this) = Some a)) as [Hs|Hns].
      { pose proof (chunk_clear_lookup _ _ _ Os Hs) as Hl.
        rewrite H1 in Hl. cbn [snd] in Hl. rewrite Hl in Hb.
        injection Hb as <-. split; [done|]. cbn [data].
        by rewrite length_replicate. }
      rewrite Hfr1 in Hb by done.
      by destruct (Hz a b Hle Hb) as [? | [? | ?]].
  - cbn [run]. cbn [forallb is_set_param andb] in Hset.
    pose proof (tidy_set_param _ _ _ param v _ Ht) as Ht'.
    destruct (set_param this param v h1) as [[ok t] h']. cbn [fst snd] in *.
    by apply IH.
Qed.

(** X9. A construction that fails after the instance was initialised
    (no such digest, or a failed self-test) leaves nothing of the
    placeholder key: the one block it had allocated is released and
    holds 32 zero bytes, and the heap is otherwise as it was. *)
Theorem failed_create_wipes_placeholder prf h name :
  enum_to_name hash_algorithm_short_names
    (hasher_algorithm_from_prf prf) = Some name ->
  EVP_get_digestbyname name = None
  \/ fst (get_bytes (fst (init name h)) sizeof_buf false
            (snd (init name h))) = false ->
  openssl_kdf_create KDF_PRF_PLUS prf h
  = (None, h ++ [Block false (replicate 32 x00)]).
Proof.
  intros Hname Hfail. unfold openssl_kdf_create. rewrite Hname.
  pose proof (destroy_init name h) as Hd.
  destruct (init name h) as [this h1] eqn:Hinit. cbn [fst snd] in *.
  rewrite Hd.
  assert (is_null (hasher this)
          || negb (fst (get_bytes this sizeof_buf false h1)) = true) as ->;
    [|done].
  destruct Hfail as [Hmd | Hself].
  - rewrite init_eq in Hinit. injection Hinit as <- _.
    cbn [hasher]. by rewrite Hmd.
  - rewrite Hself. apply orb_true_r.
Qed.

End More.


(** * Properties of the logger *)

Section LoggerFacts.
Import Logger.
Context `{P : Platform}.
Local Open Scope Z_scope.

Local Ltac bitwise :=
  apply Z.bits_inj'; intros n Hn;
  repeat first [ rewrite Z.land_spec | rewrite Z.lor_spec
               | rewrite Z.lnot_spec by done | rewrite Z.bits_0 ];
  repeat match goal with
         | |- context [Z.testbit ?a n] => destruct (Z.testbit a n)
         end; reflexivity.

Lemma land_lor_same s l : Z.land (Z.lor s l) l = l.
Proof. bitwise. Qed.

Lemma land_lnot_same s l x :
  Z.land l (Z.land (Z.land s (Z.lnot l)) x) = 0.
Proof. bitwise. Qed.

Lemma logg_passes this loglevel format args :
  passes this loglevel = true <-> logg this loglevel format args <> [].
Proof.
  unfold logg. destruct (passes this loglevel); [|done].
  by destruct (output this).
Qed.

Lemma log_bytes_passes this loglevel label bytes :
  passes this loglevel = true <-> log_bytes this loglevel label bytes <> [].
Proof.
  unfold log_bytes. destruct (passes this loglevel); [|done].
  by destruct (output this).
Qed.

(** X10. Once a level is enabled, whatever the logger's levels were,
    a message and a dump of that level are written. *)
Theorem enable_level_lets_through this l format args label bytes :
  passes (enable_level this l) l = true
  /\ logg (enable_level this l) l format args <> []
  /\ log_bytes (enable_level this l) l label bytes <> [].
Proof.
  assert (Hp : passes (enable_level this l) l = true).
  { unfold passes, enable_level. cbn [level].
    rewrite land_lor_same. apply Z.eqb_refl. }
  split; [done|]. split; [by apply logg_passes | by apply log_bytes_passes].
Qed.

(** X11. Once a level is disabled, nothing is written for a message or
    a dump whose level has a bit in common with it, whatever else its
    level carries and whatever was enabled before. *)
Theorem disable_level_silences this l l' format args label bytes :
  Z.land l l' <> 0 ->
  logg (disable_level this l) l' format args = []
  /\ log_bytes (disable_level this l) l' label bytes = [].
Proof.
  intros Hcommon.
  assert (Hp : passes (disable_level this l) l' = false).
  { unfold passes, disable_level. cbn [level].
    apply Z.eqb_neq. intros Heq. apply Hcommon.
    rewrite <- Heq. apply land_lnot_same. }
  unfold logg, log_bytes. by rewrite Hp.
Qed.

(** X12. A message of level 0 passes every logger; enabling a level
    never stops a message that passed, and disabling one never lets
    through a message that did not. *)
Theorem levels_only_add_or_remove this l x :
  passes this 0 = true
  /\ (passes this x = true -> passes (enable_level this l) x = true)
  /\ (passes (disable_level this l) x = true -> passes this x = true).
Proof.
  unfold passes, enable_level, disable_level. cbn [level].
  split; [by rewrite Z.land_0_r|].
  split; intros H; apply Z.eqb_eq in H; apply Z.eqb_eq.
  - rewrite <- H at 2. rewrite <- H at 1. bitwise.
  - rewrite <- H at 2. rewrite <- H at 1. bitwise.
Qed.

(** X13. How the two compose: disabling a level undoes enabling it
    (and more: it also removes what was there before), enabling undoes
    disabling, each is idempotent, and on a logger that had no bit of
    the level, enabling and then disabling it gives the logger back. *)
Theorem enable_disable_compose this l :
  disable_level (enable_level this l) l = disable_level this l
  /\ enable_level (disable_level this l) l = enable_level this l
  /\ enable_level (enable_level this l) l = enable_level this l
  /\ disable_level (disable_level this l) l = disable_level this l
  /\ (Z.land (get_level this) l = 0 ->
      disable_level (enable_level this l) l = this).
Proof.
  unfold enable_level, disable_level, get_level.
  cbn [level name output log_thread_id].
  split; [f_equal; bitwise|]. split; [f_equal; bitwise|].
  split; [f_equal; bitwise|]. split; [f_equal; bitwise|].
  intros H0. destruct this as [s nm out tid].
  cbn [level name output log_thread_id] in *.
  f_equal. apply Z.bits_inj'. intros n Hn.
  apply (f_equal (fun z => Z.testbit z n)) in H0.
  rewrite Z.land_spec, Z.bits_0 in H0.
  rewrite Z.land_spec, Z.lor_spec, Z.lnot_spec by done.
  destruct (Z.testbit s n), (Z.testbit l n); done.
Qed.

(** X19. A logger passes a message exactly when every bit of the
    message's level is a bit of the logger's level; for a logger as
    [logger_create] returns it, that is the level it was created
    with. *)
Theorem created_logger_passes_by_bits
    logger_name log_level tid out x format args :
  let this := fst (logger_create logger_name log_level tid out) in
  get_level this = log_level
  /\ (logg this x format args <> []
      <-> forall n, 0 <= n -> Z.testbit x n = true ->
            Z.testbit log_level n = true).
Proof.
  cbv zeta. split; [done|]. rewrite <- logg_passes.
  unfold passes, logger_create. cbn [fst level]. rewrite Z.eqb_eq. split.
  - intros H n Hn Hx. rewrite <- H, Z.land_spec in Hx.
    by apply andb_prop in Hx as [? _].
  - intros H. apply Z.bits_inj'. intros n Hn. rewrite Z.land_spec.
    specialize (H n Hn). destruct (Z.testbit x n); [|apply andb_false_r].
    by rewrite H.
Qed.

(** *** The dump *)

Lemma shown_not_nul b : Byte.eqb (shown b) x00 = false.
Proof. destruct b; reflexivity. Qed.

Lemma c_str_shown l r : c_str (map shown l ++ x00 :: r) = map shown l.
Proof.
  induction l as [|b l IH]; [done|].
  cbn [map app c_str]. by rewrite shown_not_nul, IH.
Qed.

Lemma hex_digits_of_byte b :
  byte_of_Z (16 * digit_value (hex_hi b) + digit_value (hex_lo b)) = b.
Proof. destruct b; reflexivity. Qed.

Lemma unhex_hex_line l : unhex (hex_line l) = l.
Proof.
  destruct l as [|b l]; [done|]. revert b.
  induction l as [|b' l IH]; intros b.
  - cbn [hex_line flat_map app unhex]. by rewrite hex_digits_of_byte.
  - specialize (IH b'). cbn [hex_line flat_map app unhex] in *.
    by rewrite hex_digits_of_byte, IH.
Qed.

Lemma unhex_hex_line_space l :
  unhex (hex_line l ++ [" "%byte]) = l.
Proof.
  destruct l as [|b l]; [done|]. revert b.
  induction l as [|b' l IH]; intros b.
  - cbn [hex_line flat_map app unhex]. by rewrite hex_digits_of_byte.
  - specialize (IH b'). cbn [hex_line flat_map app unhex] in *.
    by rewrite hex_digits_of_byte, IH.
Qed.

(** Only [i] modulo 16 matters to the loop. *)
Lemma dump_period this bytes i buffer ascii_buffer line_start :
  0 <= i ->
  dump this bytes (i + 16) buffer ascii_buffer line_start
  = dump this bytes i buffer ascii_buffer line_start.
Proof.
  revert i buffer ascii_buffer line_start.
  induction bytes as [|b rest IH]; intros i buffer ascii_buffer line_start Hi;
    [done|].
  cbn [dump].
  assert (H16 : Z.rem (i + 16) 16 = Z.rem i 16).
  { rewrite !Z.rem_mod_nonneg by lia.
    replace (i + 16) with (i + 1 * 16) by lia. apply Z_mod_plus_full. }
  assert (H4 : Z.rem (i + 16) 4 = Z.rem i 4).
  { rewrite !Z.rem_mod_nonneg by lia.
    replace (i + 16) with (i + 4 * 4) by lia. apply Z_mod_plus_full. }
  rewrite H16, H4.
  replace (i + 16 + 1) with (i + 1 + 16) by lia.
  by rewrite !IH by lia.
Qed.

(** A line of sixteen bytes, from the state the loop is in at the
    start of a line: nothing in [buffer], and [ascii_buffer] empty but
    for its first character. *)
Lemma dump_full_line this l15 b16 rest a0 line_start :
  length l15 = 15%nat ->
  dump this (l15 ++ b16 :: rest) 1 [] (a0 :: replicate 16 x00) line_start
  = dump_line this false line_start (hex_line (l15 ++ [b16]))
      (a0 :: map shown l15 ++ [x00])
    :: dump this rest 1 [] (shown b16 :: replicate 16 x00) (line_start + 16).
Proof.
  intros Hlen.
  do 15 (destruct l15 as [|? l15]; [discriminate|]).
  destruct l15; [|discriminate].
  rewrite <- (dump_period this rest 1) by lia. reflexivity.
Qed.

(** What is left when fewer than sixteen bytes remain. *)
Lemma dump_last_line this l a0 line_start :
  (length l < 16)%nat ->
  dump this l 1 [] (a0 :: replicate 16 x00) line_start
  = match l with
    | [] => []
    | _ :: _ =>
        [dump_line this true line_start (hex_line l ++ [" "%byte])
           (a0 :: map shown l ++ replicate (16 - length l) x00)]
    end.
Proof.
  intros Hlen.
  do 16 (destruct l as [|? l]; [reflexivity|]).
  simpl in Hlen. lia.
Qed.

(** Induction over the lines of a dump. *)
Lemma lines_ind (Q : list byte -> Prop) :
  (forall l, (length l < 16)%nat -> Q l) ->
  (forall l15 b16 rest, length l15 = 15%nat -> Q rest ->
     Q (l15 ++ b16 :: rest)) ->
  forall l, Q l.
Proof.
  intros Hlast Hfull l.
  induction l as [l IH] using (induction_ltof1 _ (@length byte)).
  unfold ltof in IH.
  destruct (Nat.lt_ge_cases (length l) 16) as [Hlt|Hge]; [by apply Hlast|].
  destruct (drop 15 l) as [|b16 rest] eqn:Hd.
  { apply (f_equal length) in Hd. rewrite length_drop in Hd. simpl in Hd. lia. }
  rewrite <- (take_drop 15 l), Hd.
  assert (Hrest : (length rest < length l)%nat).
  { apply (f_equal length) in Hd. rewrite length_drop in Hd. simpl in Hd. lia. }
  apply Hfull; [|by apply IH].
  rewrite length_take. lia.
Qed.

Lemma line_offset_dump_line this last line_start buffer ascii_buffer :
  line_offset (dump_line this last line_start buffer ascii_buffer)
  = Some line_start.
Proof. unfold dump_line. by destruct (output this), last. Qed.

Lemma line_hex_dump_line this last line_start buffer ascii_buffer :
  line_hex (dump_line this last line_start buffer ascii_buffer) = buffer.
Proof. unfold dump_line. by destruct (output this), last. Qed.

Lemma line_ascii_dump_line this last line_start buffer ascii_buffer :
  line_ascii (dump_line this last line_start buffer ascii_buffer)
  = c_str ascii_buffer.
Proof. unfold dump_line. by destruct (output this), last. Qed.

(** After its header [log_bytes] writes the lines of the loop, started
    with an empty [ascii_buffer]. *)
Lemma log_bytes_lines this loglevel label bytes :
  passes this loglevel = true ->
  drop (header_records this) (log_bytes this loglevel label bytes)
  = dump this bytes 1 [] (x00 :: replicate 16 x00) 0.
Proof.
  intros Hp. unfold log_bytes, header_records. rewrite Hp.
  by destruct (output this).
Qed.

Lemma dump_offsets this bytes a0 line_start :
  map line_offset
    (dump this bytes 1 [] (a0 :: replicate 16 x00) line_start)
  = map (fun k => Some (line_start + 16 * Z.of_nat k))
      (seq 0 ((length bytes + 15) / 16)).
Proof.
  revert a0 line_start. induction bytes as [l Hl | l15 b16 rest Hl IH]
    using lines_ind; intros a0 line_start.
  - rewrite dump_last_line by done. destruct l as [|b l]; [done|].
    replace ((length (b :: l) + 15) / 16)%nat with 1%nat.
    + cbn [map seq]. rewrite line_offset_dump_line. do 2 f_equal. lia.
    + apply Nat.div_unique with (r := length l); simpl in *; lia.
  - rewrite dump_full_line by done.
    replace ((length (l15 ++ b16 :: rest) + 15) / 16)%nat
      with (S ((length rest + 15) / 16)).
    + cbn [map seq]. rewrite line_offset_dump_line, IH.
      f_equal; [f_equal; lia|].
      rewrite <- seq_shift, map_map. apply map_ext. intros k.
      f_equal. lia.
    + rewrite length_app, Hl. cbn [length].
      replace (15 + S (length rest) + 15)%nat
        with (1 * 16 + (length rest + 15))%nat by lia.
      by rewrite Nat.div_add_l.
Qed.

(** X14. A dump has one line for every sixteen bytes, the last one
    possibly shorter, and none for no bytes; the offset that starts the
    k-th line is 16 k. *)
Theorem log_bytes_line_offsets this loglevel label bytes :
  passes this loglevel = true ->
  Z.of_nat (length bytes) < 2 ^ 31 ->
  map line_offset
    (drop (header_records this) (log_bytes this loglevel label bytes))
  = map (fun k => Some (16 * Z.of_nat k))
      (seq 0 ((length bytes + 15) / 16)).
Proof.
  intros Hp _. rewrite log_bytes_lines by done. apply dump_offsets.
Qed.

Lemma dump_unhex this bytes a0 line_start :
  flat_map (fun e => unhex (line_hex e))
    (dump this bytes 1 [] (a0 :: replicate 16 x00) line_start)
  = bytes.
Proof.
  revert a0 line_start. induction bytes as [l Hl | l15 b16 rest Hl IH]
    using lines_ind; intros a0 line_start.
  - rewrite dump_last_line by done. destruct l as [|b l]; [done|].
    cbn [flat_map]. rewrite line_hex_dump_line, unhex_hex_line_space.
    apply app_nil_r.
  - rewrite dump_full_line by done. cbn [flat_map].
    rewrite line_hex_dump_line, unhex_hex_line, IH.
    by rewrite <- app_assoc.
Qed.

(** X15. The hex column loses nothing: read back, two digits a byte,
    the hex columns of the lines of a dump give the bytes that were
    dumped, in order. *)
Theorem log_bytes_hex_round_trip this loglevel label bytes :
  passes this loglevel = true ->
  Z.of_nat (length bytes) < 2 ^ 31 ->
  flat_map (fun e => unhex (line_hex e))
    (drop (header_records this) (log_bytes this loglevel label bytes))
  = bytes.
Proof.
  intros Hp _. rewrite log_bytes_lines by done. apply dump_unhex.
Qed.

Lemma c_str_first a0 l r :
  c_str (a0 :: map shown l ++ x00 :: r)
  = if Byte.eqb a0 x00 then [] else a0 :: map shown l.
Proof. cbn [c_str]. by rewrite c_str_shown. Qed.

Lemma dump_ascii this bytes a0 line_start k e :
  dump this bytes 1 [] (a0 :: replicate 16 x00) line_start !! k = Some e ->
  line_ascii e
  = match k with
    | O => if Byte.eqb a0 x00 then [] else a0 :: map shown (take 15 bytes)
    | S k' => map shown (take 16 (drop (16 * k' + 15) bytes))
    end.
Proof.
  revert a0 line_start k. induction bytes as [l Hl | l15 b16 rest Hl IH]
    using lines_ind; intros a0 line_start k.
  - rewrite dump_last_line by done. destruct l as [|b l]; [done|].
    destruct k as [|k]; [|done]. intros [= <-].
    rewrite line_ascii_dump_line.
    cbn [length Nat.sub].
    replace (15 - length l)%nat with (S (14 - length l))
      by (simpl in Hl; lia).
    etrans; [apply (c_str_first a0 (b :: l))|].
    rewrite take_ge; [done | simpl in *; lia].
  - rewrite dump_full_line by done.
    destruct k as [|k]; cbn [lookup list_lookup].
    + intros [= <-]. rewrite line_ascii_dump_line, c_str_first.
      by rewrite take_app_le, take_ge by lia.
    + intros He. rewrite (IH _ _ _ He). destruct k as [|k].
      * rewrite shown_not_nul.
        rewrite drop_app_ge, Hl by lia.
        by cbn [Nat.mul Nat.add Nat.sub drop take map].
      * f_equal. f_equal.
        rewrite (cons_middle b16), app_assoc.
        rewrite drop_app_ge by (rewrite length_app, Hl; simpl; lia).
        f_equal. rewrite length_app, Hl. simpl. lia.
Qed.

(** X16. The ASCII column runs one byte behind.  For the first line it
    is always empty; for every later line it starts with the last byte
    of the line before and shows at most sixteen bytes, so the last
    byte of each full line appears on the next line or not at all.  A
    byte is shown as itself if it is printable (32 to 126) and as '*'
    if not. *)
Theorem log_bytes_ascii_column this loglevel label bytes k e :
  passes this loglevel = true ->
  Z.of_nat (length bytes) < 2 ^ 31 ->
  drop (header_records this) (log_bytes this loglevel label bytes) !! k
  = Some e ->
  line_ascii e
  = match k with
    | O => []
    | S k' => map shown (take 16 (drop (16 * k' + 15) bytes))
    end.
Proof.
  intros Hp _. rewrite log_bytes_lines by done. intros He.
  rewrite (dump_ascii _ _ _ _ _ _ He). by destruct k.
Qed.

Lemma dump_sink this bytes i buffer ascii_buffer line_start :
  forallb (match output this with
           | None => is_syslog
           | Some f => written_to f
           end)
    (dump this bytes i buffer ascii_buffer line_start) = true.
Proof.
  assert (Hline : forall last ls b a,
    (match output this with None => is_syslog | Some f => written_to f end)
      (dump_line this last ls b a) = true).
  { intros last ls b a. unfold dump_line.
    destruct (output this), last; cbn [is_syslog written_to];
      try done; apply Nat.eqb_refl. }
  revert i buffer ascii_buffer line_start.
  induction bytes as [|b rest IH]; intros i buffer ascii_buffer line_start;
    cbn [dump].
  - destruct buffer; cbn [forallb]; [done|]. by rewrite Hline.
  - destruct (Z.rem i 16 =? 0); [|by destruct (Z.rem i 4 =? 0)].
    cbn [forallb]. by rewrite Hline, IH.
Qed.

(** X17. A logger writes to one place only: without a file every
    record of a message or a dump goes to the system log, with a file
    every record goes to that file and none to the system log. *)
Theorem one_sink this loglevel format args label bytes :
  let here :=
    match output this with
    | None => is_syslog
    | Some f => written_to f
    end in
  forallb here (logg this loglevel format args) = true
  /\ forallb here (log_bytes this loglevel label bytes) = true.
Proof.
  cbv zeta. unfold logg, log_bytes. destruct (passes this loglevel); [|done].
  pose proof (dump_sink this bytes 1 [] (memset0 (replicate 17 x00) 17) 0)
    as Hd.
  destruct (output this); cbn [forallb app is_syslog written_to andb] in *;
    rewrite ?Nat.eqb_refl; cbn [andb]; by rewrite ?Hd.
Qed.

(** X18. The digits written for a byte are those of its value as an
    unsigned number, high four bits first, in upper case, and the
    ASCII column shows the byte itself exactly when that value lies
    between 32 and 126: that [char] is signed makes no difference, also
    for the bytes from 0x80 on. *)
Theorem hex_digits_unsigned b :
  let n := Z.of_N (Byte.to_N b) in
  hex_hi b = hexdig_at (n / 16)
  /\ hex_lo b = hexdig_at (n mod 16)
  /\ shown b = (if (32 <=? n) && (n <=? 126) then b else "*"%byte).
Proof. destruct b; repeat split; reflexivity. Qed.

End LoggerFacts.

(** ** The further properties on concrete inputs *)

Section MoreRuns.
Import Sample Inputs.

Lemma set_param_stores_value_witness :
  wf t2 h2 = true
  /\ (let '(ok, t, h') := set_param t2 KDF_PARAM_KEY (Some [x21; x22]) h2 in
      ok = true /\ chunk_bytes h' (key t) = default [] (Some [x21; x22])
      /\ len (key t) = N.of_nat (length (default [] (Some [x21; x22]))))
  /\ (let '(ok, t, h') := set_param t2 KDF_PARAM_SALT (Some [x21; x22]) h2 in
      ok = true /\ chunk_bytes h' (salt t) = default [] (Some [x21; x22])
      /\ len (salt t) = N.of_nat (length (default [] (Some [x21; x22])))).
Proof.
  split; [reflexivity|].
  apply (set_param_stores_value (E := externals) t2 (Some [x21; x22]) h2).
  reflexivity.
Defined.

Lemma set_param_leaves_other_witness :
  wf t2 h2 = true
  /\ (let '(_, t, h') := set_param t2 KDF_PARAM_KEY (Some [x21; x22]) h2 in
      hasher t = hasher t2 /\ salt t = salt t2
      /\ chunk_bytes h' (salt t) = chunk_bytes h2 (salt t2))
  /\ (let '(_, t, h') := set_param t2 KDF_PARAM_SALT (Some [x21; x22]) h2 in
      hasher t = hasher t2 /\ key t = key t2
      /\ chunk_bytes h' (key t) = chunk_bytes h2 (key t2)).
Proof.
  split; [reflexivity|].
  apply (set_param_leaves_other (E := externals) t2 (Some [x21; x22]) h2).
  reflexivity.
Defined.

Lemma set_param_empty_witness :
  default [] (Some []) = ([] : list byte)
  /\ let '(_, t, h') := set_param t2 KDF_PARAM_SALT (Some []) h2 in
     length h' = length h2
     /\ (KDF_PARAM_SALT = KDF_PARAM_KEY -> key t = chunk_empty)
     /\ (KDF_PARAM_SALT = KDF_PARAM_SALT -> salt t = chunk_empty).
Proof.
  split; [reflexivity|].
  apply (set_param_empty (E := externals) t2 KDF_PARAM_SALT (Some []) h2).
  reflexivity.
Defined.

(** The same key and salt in two heaps, at different addresses. *)
Lemma derive_depends_on_contents_witness :
  wf t2 h2 = true /\ wf t3 h3 = true
  /\ hasher t2 = hasher t3
  /\ chunk_bytes h2 (key t2) = chunk_bytes h3 (key t3)
  /\ chunk_bytes h2 (salt t2) = chunk_bytes h3 (salt t3)
  /\ key t2 <> key t3
  /\ derive t2 40 h2 = derive t3 40 h3.
Proof.
  do 5 (split; [reflexivity|]). split; [discriminate|].
  apply (derive_depends_on_contents (E := externals) t2 t3 40 h2 h3);
    reflexivity.
Defined.

Lemma calls_keep_instance_witness :
  openssl_kdf_create KDF_PRF_PLUS PRF_HMAC_SHA2_256 busy = (Some t1, h1)
  /\ let '(t, h) := run calls t1 h1 in
     wf t h = true
     /\ hasher t = hasher t1
     /\ (forall a, (a < length busy)%nat -> h !! a = busy !! a)
     /\ (forall a, ptr (key t) = Some a \/ ptr (salt t) = Some a ->
           (length busy <= a)%nat).
Proof.
  split; [reflexivity|].
  apply (calls_keep_instance (E := externals) KDF_PRF_PLUS
           PRF_HMAC_SHA2_256 busy t1 h1 calls).
  reflexivity.
Defined.

Lemma lifecycle_leaves_nothing_witness :
  openssl_kdf_create KDF_PRF_PLUS PRF_HMAC_SHA2_256 busy = (Some t1, h1)
  /\ forallb is_set_param settings = true
  /\ let '(t, h) := run settings t1 h1 in
     let h' := destroy t h in
     (forall a, (a < length busy)%nat -> h' !! a = busy !! a)
     /\ (forall a b, (length busy <= a)%nat -> h' !! a = Some b ->
           dead_zero b).
Proof.
  split; [reflexivity|]. split; [reflexivity|].
  apply (lifecycle_leaves_nothing (E := externals) KDF_PRF_PLUS
           PRF_HMAC_SHA2_256 busy t1 h1 settings); reflexivity.
Defined.

Lemma failed_create_wipes_placeholder_witness :
  enum_to_name hash_algorithm_short_names
    (hasher_algorithm_from_prf PRF_HMAC_MD5) = Some "md5"%string
  /\ (EVP_get_digestbyname "md5"%string = None
      \/ fst (get_bytes (fst (init "md5"%string busy)) sizeof_buf false
                (snd (init "md5"%string busy))) = false)
  /\ openssl_kdf_create KDF_PRF_PLUS PRF_HMAC_MD5 busy
     = (None, busy ++ [Block false (replicate 32 x00)]).
Proof.
  assert (Hmd :
    EVP_get_digestbyname "md5"%string = None
    \/ fst (get_bytes (fst (init "md5"%string busy)) sizeof_buf false
              (snd (init "md5"%string busy))) = false)
    by (left; reflexivity).
  split; [reflexivity|]. split; [exact Hmd|].
  exact (failed_create_wipes_placeholder (E := externals) PRF_HMAC_MD5 busy
           "md5"%string eq_refl Hmd).
Defined.

(** What the lifecycle statement is about, spelt out. *)
Example lifecycle_heap :
  let '(t, h) := run settings t1 h1 in
  destroy t h
  = busy ++ [Block false (replicate 32 x00); Block false (replicate 4 x00);
             Block false (replicate 4 x00); Block false (replicate 2 x00)].
Proof. reflexivity. Qed.

End MoreRuns.

Section LoggerRuns.
Import Logger Inputs.
Local Open Scope Z_scope.

(** CONTROL and RAW on a logger from which RAW was taken. *)
Lemma disable_level_silences_witness :
  Z.land 8 9 <> 0
  /\ logg (disable_level tester 8) 9 (str "sending %d bytes") [Arg_int 35]
     = []
  /\ log_bytes (disable_level tester 8) 9 (str "key") dumped = [].
Proof.
  assert (H : Z.land 8 9 <> 0) by discriminate.
  split; [exact H|].
  exact (disable_level_silences (P := sample) tester 8 9
           (str "sending %d bytes") [Arg_int 35] (str "key") dumped H).
Defined.

Lemma log_bytes_line_offsets_witness :
  passes tester 9 = true
  /\ Z.of_nat (length dumped) < 2 ^ 31
  /\ map line_offset
       (drop (header_records tester) (log_bytes tester 9 (str "key") dumped))
     = map (fun k => Some (16 * Z.of_nat k))
         (seq 0 ((length dumped + 15) / 16)).
Proof.
  split; [reflexivity|]. split; [reflexivity|].
  apply (log_bytes_line_offsets (P := sample) tester 9 (str "key") dumped);
    reflexivity.
Defined.

Lemma log_bytes_hex_round_trip_witness :
  passes tester 9 = true
  /\ Z.of_nat (length dumped) < 2 ^ 31
  /\ flat_map (fun e => unhex (line_hex e))
       (drop (header_records tester) (log_bytes tester 9 (str "key") dumped))
     = dumped.
Proof.
  split; [reflexivity|]. split; [reflexivity|].
  apply (log_bytes_hex_round_trip (P := sample) tester 9 (str "key") dumped);
    reflexivity.
Defined.

Lemma log_bytes_ascii_column_witness :
  passes tester 9 = true
  /\ Z.of_nat (length dumped) < 2 ^ 31
  /\ drop (header_records tester) (log_bytes tester 9 (str "key") dumped)
     !! 2%nat = Some third_line
  /\ line_ascii third_line
     = map shown (take 16 (drop (16 * 1 + 15) dumped)).
Proof.
  split; [reflexivity|]. split; [reflexivity|]. split; [reflexivity|].
  apply (log_bytes_ascii_column (P := sample) tester 9 (str "key") dumped
           2%nat third_line); reflexivity.
Defined.

(** The whole dump of [dumped]: the first line has no ASCII column,
    the second shows the 16th to the 31st byte, the third the 32nd to
    the 35th. *)
Example dump_of_dumped :
  map (fun e => (line_offset e, line_hex e, line_ascii e))
    (drop 1 (log_bytes tester 9 (str "key") dumped))
  = [(Some 0, str "30 30 30 30 30 30 30 30 30 30 30 30 30 30 30 30", []);
     (Some 16, str "30 30 30 30 30 30 30 30 30 30 30 30 30 30 30 30",
      str "0000000000000000");
     (Some 32, str "01 FF 41 ", str "0**A")].
Proof. reflexivity. Qed.

End LoggerRuns.
